(** * rpcalc: the optimal purchase plan solver ([findOptimalPlan], src/App.tsx)

    A shallow embedding of [findOptimalPlan] and of the state of the
    application around it, with the proofs of the cost-table fill, the
    selection scan and the back-pointer walk.

    Modelling conventions.
    - A price, and every cell of [dp], is a JavaScript [number]: an IEEE 754
      binary64 value, [spec_float] of the Standard Library with precision 53
      and maximal exponent 1024.  [+] is [SFadd] (round to nearest, ties to
      even, overflow to infinity), [<] is [SFltb], [===] is [SFeqb].
    - Amounts, targets and ids are integers of [Z].  They index arrays, whose
      length JavaScript bounds by [2 ^ 32]; index arithmetic is therefore
      exact.  That length limit itself is not modelled.
    - An array is a [list]; reading outside of it gives [None] (JavaScript's
      [undefined]), and every comparison against [undefined] is false.
    - The [while] loop of the reconstruction need not terminate on arbitrary
      input, so it carries a fuel argument; [None] means the fuel ran out.
    - The state of the React components ([settings], [localPrices]) is passed
      explicitly: a handler maps the state it closes over to the state it
      sets.  A JavaScript object keyed by package id is a [gmap Z].
    - [parseInt] is a parameter about which nothing is assumed; it yields
      [NaN] ([None]) or an integer, which becomes the number nearest to it.
      The parts of the screens that divide ([rpPerWon], [efficiency],
      [calculateSavings]) and the purchase list are left out.

    Sums of prices round once they pass [2 ^ 53].  The properties that speak
    of exact sums are proved for catalogues of integer prices that stay below
    that bound ([valid_tiers]).  There the solver computes what the same
    program computes over the integers; that program is [Exact], and the
    proofs about sums are carried out on it and transferred. *)

From stdpp Require Import list relations gmap strings.
From Stdlib Require Import SpecFloat.

Local Open Scope Z_scope.

(** ** Numbers *)

Definition number := spec_float.

(** [x + y]. *)
Definition js_add (x y : number) : number := SFadd 53 1024 x y.

(** [x < y]. *)
Definition js_lt (x y : number) : bool := SFltb x y.

(** [x === y]. *)
Definition js_eq (x y : number) : bool := SFeqb x y.

Definition Infinity : number := S754_infinity false.

(** The number nearest to an integer: what an integer literal denotes. *)
Definition Z2num (z : Z) : number := binary_normalize 53 1024 z 0 false.

(** The integer part of a finite number; 0 for the others. *)
Definition number_Z (x : number) : Z :=
  match x with
  | S754_finite s m e => cond_Zopp s (Z.shiftl (Z.pos m) e)
  | _ => 0
  end.

(** Equality of representations. *)
Definition number_eqb (x y : number) : bool :=
  match x, y with
  | S754_zero s, S754_zero s' => Bool.eqb s s'
  | S754_infinity s, S754_infinity s' => Bool.eqb s s'
  | S754_nan, S754_nan => true
  | S754_finite s m e, S754_finite s' m' e' =>
      Bool.eqb s s' && (m =? m')%positive && (e =? e')
  | _, _ => false
  end.

(** ** Data *)

Record RPPackage := { id : Z; rp : Z; price : number }.

(** A cell of [parent] is [null] ([None]) or [{ tier, prevRP }]. *)
Record link := { tier : RPPackage; prevRP : Z }.

Record table := { dp : list number; parent : list (option link) }.

Record Plan := {
  packages : list RPPackage;
  totalRP : Z;
  totalPrice : number
}.

(** ** Arrays indexed by integers *)

Definition aget {A} (a : list A) (i : Z) : option A :=
  if 0 <=? i then a !! Z.to_nat i else None.

Definition aset {A} (a : list A) (i : Z) (v : A) : list A :=
  if 0 <=? i then <[Z.to_nat i := v]> a else a.

(** ** Counting loops *)

Fixpoint for_range {T} (n : nat) (i : Z) (body : Z → T → T) (s : T) : T :=
  match n with
  | O => s
  | S n' => for_range n' (i + 1) body (body i s)
  end.

(** [for (let i = lo; i < hi; i++) s = body i s]. *)
Definition for_loop {T} (lo hi : Z) (body : Z → T → T) (s : T) : T :=
  for_range (Z.to_nat (hi - lo)) lo body s.

(** ** The solver *)

(** [tiers.reduce((max, t) => Math.max(max, t.rp), 0)]. *)
Definition maxRP (tiers : list RPPackage) : Z :=
  fold_left (λ max t, Z.max max (rp t)) tiers 0.

(** The body of the inner loop, lines 76-82. *)
Definition relax (maxPossibleRP i : Z) (st : table) (t : RPPackage) : table :=
  let nextRP := i + rp t in
  if nextRP <=? maxPossibleRP then
    match aget (dp st) i, aget (dp st) nextRP with
    | Some ci, Some cn =>
        if js_lt (js_add ci (price t)) cn then
          {| dp := aset (dp st) nextRP (js_add ci (price t));
             parent := aset (parent st) nextRP
                         (Some {| tier := t; prevRP := i |}) |}
        else st
    | _, _ => st
    end
  else st.

(** The body of the outer loop, lines 74-83. *)
Definition fill_step (tiers : list RPPackage) (maxPossibleRP i : Z)
    (st : table) : table :=
  match aget (dp st) i with
  | Some ci =>
      if js_eq ci Infinity then st
      else fold_left (relax maxPossibleRP i) tiers st
  | None => fold_left (relax maxPossibleRP i) tiers st
  end.

(** Lines 68-71. *)
Definition init_table (maxPossibleRP : Z) : table :=
  {| dp := aset (replicate (Z.to_nat (maxPossibleRP + 1)) Infinity) 0
             (Z2num 0);
     parent := replicate (Z.to_nat (maxPossibleRP + 1)) None |}.

(** Lines 68-84: the cost table and its back pointers. *)
Definition build_table (tiers : list RPPackage) (maxPossibleRP : Z) : table :=
  for_loop 0 maxPossibleRP (fill_step tiers maxPossibleRP)
    (init_table maxPossibleRP).

(** The body of the selection loop, lines 90-93, on [(minPrice, bestRP)]. *)
Definition scan_step (d : list number) (i : Z) (s : number * Z)
    : number * Z :=
  match aget d i with
  | Some c => if js_lt c s.1 then (c, i) else s
  | None => s
  end.

(** Lines 86-94. *)
Definition select_best (d : list number) (targetRP maxPossibleRP : Z)
    : number * Z :=
  for_loop targetRP (maxPossibleRP + 1) (scan_step d) (Infinity, targetRP).

(** Lines 96-101: the packages pushed from [curr] on. *)
Fixpoint walk (fuel : nat) (par : list (option link)) (curr : Z)
    : option (list RPPackage) :=
  match fuel with
  | O => None
  | S fuel' =>
      if 0 <? curr then
        match aget par curr with
        | Some (Some lk) =>
            match walk fuel' par (prevRP lk) with
            | Some rest => Some (tier lk :: rest)
            | None => None
            end
        | _ => Some []
        end
      else Some []
  end.

Definition findOptimalPlan (fuel : nat) (targetRP : Z)
    (tiers : list RPPackage) : option Plan :=
  if targetRP <=? 0 then
    Some {| packages := []; totalRP := 0; totalPrice := Z2num 0 |}
  else
    let maxPossibleRP := targetRP + maxRP tiers in
    let st := build_table tiers maxPossibleRP in
    let '(minPrice, bestRP) := select_best (dp st) targetRP maxPossibleRP in
    match walk fuel (parent st) bestRP with
    | Some resultPackages =>
        Some {| packages := resultPackages;
                totalRP := bestRP;
                totalPrice := minPrice |}
    | None => None
    end.

(** [DEFAULT_RP_TIERS], lines 30-37. *)
Definition tier480 : RPPackage :=
  {| id := 1; rp := 480; price := Z2num 4900 |}.
Definition tier980 : RPPackage :=
  {| id := 2; rp := 980; price := Z2num 9900 |}.
Definition tier1425 : RPPackage :=
  {| id := 3; rp := 1425; price := Z2num 14000 |}.
Definition tier3700 : RPPackage :=
  {| id := 4; rp := 3700; price := Z2num 35000 |}.
Definition tier7200 : RPPackage :=
  {| id := 5; rp := 7200; price := Z2num 65000 |}.
Definition tier11800 : RPPackage :=
  {| id := 6; rp := 11800; price := Z2num 99900 |}.

Definition DEFAULT_RP_TIERS : list RPPackage :=
  [tier480; tier980; tier1425; tier3700; tier7200; tier11800].

(** ** Multisets of packages *)

(** The price of a package as an integer. *)
Definition price_Z (t : RPPackage) : Z := number_Z (price t).

(** Sums over a multiset of packages, given as a list. *)
Fixpoint sum_rp (ms : list RPPackage) : Z :=
  match ms with
  | [] => 0
  | t :: ms' => rp t + sum_rp ms'
  end.

Fixpoint sum_price (ms : list RPPackage) : Z :=
  match ms with
  | [] => 0
  | t :: ms' => price_Z t + sum_price ms'
  end.

(** Catalogues on which no sum of the cost table up to the ceiling
    [maxPossibleRP] is rounded: positive amounts, and positive integer prices
    [p] with [p * maxPossibleRP < 2 ^ 53]. *)
Definition exact_prices (maxPossibleRP : Z) (tiers : list RPPackage) : bool :=
  forallb (λ t, (0 <? rp t)
                && number_eqb (price t) (Z2num (price_Z t))
                && (0 <? price_Z t)
                && (price_Z t * maxPossibleRP <? 2 ^ 53)) tiers.

(** The caller's contract, within exact sums: a non-empty catalogue of
    positive amounts and positive integer prices, no sum of which is rounded
    below the solver's ceiling. *)
Definition valid_tiers (targetRP : Z) (tiers : list RPPackage) : bool :=
  match tiers with
  | [] => false
  | _ => exact_prices (targetRP + maxRP tiers) tiers
  end.

(** One iteration of the reconstruction loop, on [(curr, resultPackages)]. *)
Inductive walk_step (par : list (option link))
    : Z * list RPPackage → Z * list RPPackage → Prop :=
  | walk_step_push curr acc lk :
      0 < curr →
      aget par curr = Some (Some lk) →
      walk_step par (curr, acc) (prevRP lk, acc ++ [tier lk]).

(** A back pointer is only ever stored next to a price below [Infinity]. *)
Definition linked (st : table) : Prop :=
  ∀ j lk, aget (parent st) j = Some (Some lk) →
          ∃ c, aget (dp st) j = Some c ∧ js_lt c Infinity = true.

(** Every back pointer leads to a smaller amount. *)
Definition decreasing (par : list (option link)) : Prop :=
  ∀ j lk, aget par j = Some (Some lk) → 0 ≤ prevRP lk < j.

(** The back pointers form chains of packages of the catalogue down to
    amount 0, and every cell that was written has one. *)
Record chained (tiers : list RPPackage) (st : table) : Prop := {
  ch_len : length (parent st) = length (dp st);
  ch_link : ∀ j lk,
    aget (parent st) j = Some (Some lk) →
    tier lk ∈ tiers ∧
    prevRP lk + rp (tier lk) = j ∧
    (prevRP lk = 0 ∨
     ∃ lk', aget (parent st) (prevRP lk) = Some (Some lk'));
  ch_set : ∀ j c,
    0 < j → aget (dp st) j = Some c → js_eq c Infinity = false →
    ∃ lk, aget (parent st) j = Some (Some lk)
}.

(** ** The same program over the integers *)

(** [Exact] is [findOptimalPlan] with the prices read as integers and added
    without rounding.  It is the reference against which the solver is
    proved on [valid_tiers]; the walk, the packages and the back pointers
    are those of the solver. *)
Module Exact.

(** The contents of a [dp] cell. *)
Inductive num := Fin (z : Z) | Infinity.

Definition num_add (a : num) (p : Z) : num :=
  match a with
  | Fin x => Fin (x + p)
  | Infinity => Infinity
  end.

Definition num_ltb (a b : num) : bool :=
  match a, b with
  | Fin x, Fin y => x <? y
  | Fin _, Infinity => true
  | Infinity, _ => false
  end.

Record table := { dp : list num; parent : list (option link) }.

Record Plan := {
  packages : list RPPackage;
  totalRP : Z;
  totalPrice : num
}.

Definition relax (maxPossibleRP i : Z) (st : table) (t : RPPackage) : table :=
  let nextRP := i + rp t in
  if nextRP <=? maxPossibleRP then
    match aget (dp st) i, aget (dp st) nextRP with
    | Some ci, Some cn =>
        if num_ltb (num_add ci (price_Z t)) cn then
          {| dp := aset (dp st) nextRP (num_add ci (price_Z t));
             parent := aset (parent st) nextRP
                         (Some {| tier := t; prevRP := i |}) |}
        else st
    | _, _ => st
    end
  else st.

Definition fill_step (tiers : list RPPackage) (maxPossibleRP i : Z)
    (st : table) : table :=
  match aget (dp st) i with
  | Some Infinity => st
  | _ => fold_left (relax maxPossibleRP i) tiers st
  end.

Definition init_table (maxPossibleRP : Z) : table :=
  {| dp := aset (replicate (Z.to_nat (maxPossibleRP + 1)) Infinity) 0 (Fin 0);
     parent := replicate (Z.to_nat (maxPossibleRP + 1)) None |}.

Definition build_table (tiers : list RPPackage) (maxPossibleRP : Z) : table :=
  for_loop 0 maxPossibleRP (fill_step tiers maxPossibleRP)
    (init_table maxPossibleRP).

Definition scan_step (d : list num) (i : Z) (s : num * Z) : num * Z :=
  match aget d i with
  | Some c => if num_ltb c s.1 then (c, i) else s
  | None => s
  end.

Definition select_best (d : list num) (targetRP maxPossibleRP : Z) : num * Z :=
  for_loop targetRP (maxPossibleRP + 1) (scan_step d) (Infinity, targetRP).

Definition findOptimalPlan (fuel : nat) (targetRP : Z)
    (tiers : list RPPackage) : option Plan :=
  if targetRP <=? 0 then
    Some {| packages := []; totalRP := 0; totalPrice := Fin 0 |}
  else
    let maxPossibleRP := targetRP + maxRP tiers in
    let st := build_table tiers maxPossibleRP in
    let '(minPrice, bestRP) := select_best (dp st) targetRP maxPossibleRP in
    match walk fuel (parent st) bestRP with
    | Some resultPackages =>
        Some {| packages := resultPackages;
                totalRP := bestRP;
                totalPrice := minPrice |}
    | None => None
    end.

(** A non-empty catalogue of positive amounts and positive integer prices. *)
Definition valid_tiers (tiers : list RPPackage) : bool :=
  match tiers with
  | [] => false
  | _ => forallb (λ t, (0 <? rp t) && (0 <? price_Z t)) tiers
  end.

(** What [(minPrice, bestRP)] records once the amounts below [i] are scanned:
    nothing finite was met, or the first amount of least price. *)
Definition scan_inv (d : list num) (targetRP i : Z) (s : num * Z) : Prop :=
  match s.1 with
  | Infinity =>
      s.2 = targetRP ∧ ∀ j q, targetRP ≤ j < i → aget d j ≠ Some (Fin q)
  | Fin p =>
      targetRP ≤ s.2 < i ∧ aget d s.2 = Some (Fin p) ∧
      ∀ j q, targetRP ≤ j < i → aget d j = Some (Fin q) →
             p ≤ q ∧ (q = p → s.2 ≤ j)
  end.

(** [st'] agrees with [st] up to amount [i] and is nowhere dearer. *)
Definition table_le (i : Z) (st st' : table) : Prop :=
  (∀ j, j ≤ i → aget (dp st') j = aget (dp st) j) ∧
  (∀ j p, aget (dp st) j = Some (Fin p) →
          ∃ p', aget (dp st') j = Some (Fin p') ∧ p' ≤ p).

(** The shape of the table while the outer loop is below [k]: every finite
    cell apart from amount 0 has a back pointer to a cheaper, smaller,
    already final cell. *)
Record table_wf (tiers : list RPPackage) (C k : Z) (st : table) : Prop := {
  wf_size : Z.of_nat (length (dp st)) = C + 1;
  wf_len : length (parent st) = length (dp st);
  wf_zero : aget (dp st) 0 = Some (Fin 0);
  wf_par : ∀ j lk,
    aget (parent st) j = Some (Some lk) → 0 ≤ prevRP lk < j;
  wf_sound : ∀ j p,
    0 < j → aget (dp st) j = Some (Fin p) →
    ∃ lk, aget (parent st) j = Some (Some lk) ∧
          tier lk ∈ tiers ∧
          prevRP lk + rp (tier lk) = j ∧
          prevRP lk < k ∧
          aget (dp st) (prevRP lk) = Some (Fin (p - price_Z (tier lk)))
}.

(** Every way of reaching an amount by one more package from an amount
    below [k] is accounted for. *)
Definition table_opt (tiers : list RPPackage) (C k : Z) (st : table)
    : Prop :=
  ∀ ms t,
    Forall (λ x, x ∈ tiers) ms → t ∈ tiers →
    sum_rp ms < k → sum_rp ms + rp t ≤ C →
    ∃ p, aget (dp st) (sum_rp ms + rp t) = Some (Fin p) ∧
         p ≤ sum_price ms + price_Z t.

End Exact.

(** The number that a cell of [Exact] stands for. *)
Definition embed_num (c : Exact.num) : number :=
  match c with
  | Exact.Fin z => Z2num z
  | Exact.Infinity => Infinity
  end.

Definition embed_table (st : Exact.table) : table :=
  {| dp := embed_num <$> Exact.dp st; parent := Exact.parent st |}.

Definition embed_plan (r : Exact.Plan) : Plan :=
  {| packages := Exact.packages r;
     totalRP := Exact.totalRP r;
     totalPrice := embed_num (Exact.totalPrice r) |}.

(** [q * 2 ^ k] on positives. *)
Definition shl (q : positive) (k : nat) : positive := Nat.iter k xO q.

(** The number of value [q * 2 ^ e], for [q] of at most 53 digits. *)
Definition normal (q : positive) (e : Z) : number :=
  let k := 53 - Z.pos (digits2_pos q) in
  S754_finite false (shl q (Z.to_nat k)) (e - k).

(** ** Sample catalogues *)

Definition default_tiers3 : list RPPackage := [tier480; tier980; tier1425].

Definition small_tiers : list RPPackage :=
  [ {| id := 1; rp := 3; price := Z2num 5 |};
    {| id := 2; rp := 5; price := Z2num 8 |} ].

(** Amounts 3 and 4 at the same price. *)
Definition tied_tiers : list RPPackage :=
  [ {| id := 1; rp := 3; price := Z2num 5 |};
    {| id := 2; rp := 4; price := Z2num 5 |} ].

Definition free_tiers : list RPPackage :=
  [ {| id := 1; rp := 0; price := Z2num 5 |} ].

Definition looping_tiers : list RPPackage :=
  [ {| id := 1; rp := 0; price := Z2num (-1) |};
    {| id := 2; rp := 1; price := Z2num 1 |} ].

(** Prices whose sums are rounded: [3 * (2 ^ 53 - 3)] and [3 * (2 ^ 53 - 1)]
    are odd and lie above [2 ^ 54], where numbers are multiples of 4. *)
Definition odd_tier : RPPackage :=
  {| id := 1; rp := 1; price := Z2num (2 ^ 53 - 3) |}.

Definition unit_tier : RPPackage :=
  {| id := 1; rp := 1; price := Z2num (2 ^ 53 - 1) |}.

(** Six packages of [2 ^ 53 - 4] cost 54043195528445928, the price of
    [bulk_tier]; added one by one as numbers they come to
    54043195528445936. *)
Definition even_tier : RPPackage :=
  {| id := 1; rp := 1; price := Z2num (2 ^ 53 - 4) |}.

Definition bulk_tier : RPPackage :=
  {| id := 2; rp := 7; price := Z2num 54043195528445928 |}.

(** A price whose double overflows. *)
Definition huge_tier : RPPackage :=
  {| id := 1; rp := 1; price := Z2num (10 ^ 308) |}.

(** ** The application around the solver *)

(** [customPrices] is a JavaScript object keyed by package id.  The prices
    stored in it are results of [parseInt], integers, kept here as [Z] and
    turned into the number they are where [tiers] is built. *)
Record AppSettings := { baseTierId : Z; customPrices : gmap Z Z }.

(** The state [App] starts from, lines 113-116; [resetAll] returns to it. *)
Definition initial_settings : AppSettings :=
  {| baseTierId := 6; customPrices := ∅ |}.

(** [tiers] of [App], lines 118-123: [customPrices[t.id] ?? t.price]. *)
Definition App_tiers (settings : AppSettings) : list RPPackage :=
  map (λ t, {| id := id t;
               rp := rp t;
               price := match customPrices settings !! id t with
                        | Some v => Z2num v
                        | None => price t
                        end |})
      DEFAULT_RP_TIERS.

(** [baseTier] of [App], lines 125-127:
    [tiers.find(t => t.id === baseTierId) || tiers[tiers.length - 1]];
    [None] is [undefined]. *)
Definition App_baseTier (tiers : list RPPackage) (settings : AppSettings)
    : option RPPackage :=
  match find (λ t, id t =? baseTierId settings) tiers with
  | Some t => Some t
  | None => last tiers
  end.

(** The state that [SettingsScreen] reads and writes: the settings of [App]
    and its own [localPrices], the text typed into each price field. *)
Record SettingsState := {
  settings : AppSettings;
  localPrices : gmap Z string
}.

(** The events of [SettingsScreen]. *)
Inductive action :=
  | BaseTierChange (tierId : Z)
  | PriceChange (tierId : Z) (value : string)
  | PriceBlur (tierId : Z)
  | ResetAll.

(** Lines 607-609. *)
Definition handleBaseTierChange (tierId : Z) (st : SettingsState)
    : SettingsState :=
  {| settings := {| baseTierId := tierId;
                    customPrices := customPrices (settings st) |};
     localPrices := localPrices st |}.

(** Lines 611-613. *)
Definition handlePriceChange (tierId : Z) (value : string)
    (st : SettingsState) : SettingsState :=
  {| settings := settings st;
     localPrices := <[tierId := value]> (localPrices st) |}.

(** Lines 626-629. *)
Definition resetAll (st : SettingsState) : SettingsState :=
  {| settings := initial_settings; localPrices := ∅ |}.

Section parsing.
(** JavaScript's [parseInt], applied to a string or to [undefined]; [None] is
    [NaN].  Nothing is assumed about it. *)
Variable parseInt : option string → option Z.

(** Lines 615-624. *)
Definition handlePriceBlur (tierId : Z) (st : SettingsState)
    : SettingsState :=
  let value := parseInt (localPrices st !! tierId) in
  {| settings :=
       match value with
       | Some v =>
           if 0 <? v then
             {| baseTierId := baseTierId (settings st);
                customPrices := <[tierId := v]> (customPrices (settings st)) |}
           else settings st
       | None => settings st
       end;
     localPrices := <[tierId := EmptyString]> (localPrices st) |}.

Definition handle (st : SettingsState) (a : action) : SettingsState :=
  match a with
  | BaseTierChange tierId => handleBaseTierChange tierId st
  | PriceChange tierId value => handlePriceChange tierId value st
  | PriceBlur tierId => handlePriceBlur tierId st
  | ResetAll => resetAll st
  end.

(** The state after a sequence of events. *)
Definition run (actions : list action) (st : SettingsState) : SettingsState :=
  fold_left handle actions st.

(** [planningResult] of [PlanScreen], lines 343-347.  The inner [None] is
    [null]; the outer one is the solver running out of fuel. *)
Definition planningResult (fuel : nat) (targetRP : string)
    (tiers : list RPPackage) : option (option Plan) :=
  match parseInt (Some targetRP) with
  | None => Some None
  | Some val =>
      if val <=? 0 then Some None
      else
        match findOptimalPlan fuel val tiers with
        | Some r => Some (Some r)
        | None => None
        end
  end.
End parsing.

(** The custom prices a user can have stored. *)
Definition positive_prices (s : AppSettings) : Prop :=
  map_Forall (λ _ v, 0 < v) (customPrices s).

(** ** Arrays *)

Section arrays.
Context {A : Type}.
Implicit Types (a : list A) (i j : Z) (v : A).

Lemma aget_Some a i v : aget a i = Some v → 0 ≤ i < Z.of_nat (length a).
Proof.
  unfold aget. destruct (Z.leb_spec 0 i) as [Hi|Hi]; [|done].
  intros Hl%lookup_lt_Some. lia.
Qed.

Lemma aget_is_Some a i : 0 ≤ i < Z.of_nat (length a) → is_Some (aget a i).
Proof.
  intros [Hi Hlt]. unfold aget.
  destruct (Z.leb_spec 0 i); [|lia].
  apply lookup_lt_is_Some_2. lia.
Qed.

Lemma aget_aset_eq a i v :
  0 ≤ i < Z.of_nat (length a) → aget (aset a i v) i = Some v.
Proof.
  intros [Hi Hlt]. unfold aget, aset.
  destruct (Z.leb_spec 0 i); [|lia].
  apply list_lookup_insert_eq. lia.
Qed.

Lemma aget_aset_ne a i j v : i ≠ j → aget (aset a i v) j = aget a j.
Proof.
  intros Hne. unfold aget, aset.
  destruct (Z.leb_spec 0 j); [|done].
  destruct (Z.leb_spec 0 i); [|done].
  apply list_lookup_insert_ne. lia.
Qed.

Lemma length_aset a i v : length (aset a i v) = length a.
Proof. unfold aset. destruct (0 <=? i); [apply length_insert|done]. Qed.

Lemma aget_replicate n (x : A) i v : aget (replicate n x) i = Some v → v = x.
Proof.
  unfold aget. destruct (0 <=? i); [|done].
  intros [-> _]%lookup_replicate. done.
Qed.
End arrays.

Lemma aget_fmap {A B} (f : A → B) (a : list A) i :
  aget (f <$> a) i = f <$> aget a i.
Proof. unfold aget. destruct (0 <=? i); [apply list_lookup_fmap|done]. Qed.

Lemma aset_fmap {A B} (f : A → B) (a : list A) i v :
  f <$> aset a i v = aset (f <$> a) i (f v).
Proof. unfold aset. destruct (0 <=? i); [apply list_fmap_insert|done]. Qed.

(** A cell read after a write holds the value written or its old value. *)
Lemma aget_aset_cases {A} (a : list A) i j v w :
  aget (aset a i v) j = Some w → i = j ∧ w = v ∨ aget a j = Some w.
Proof.
  intros Hw. destruct (decide (i = j)) as [->|Hne].
  - left. split; [done|].
    pose proof (aget_Some _ _ _ Hw) as Hj. rewrite length_aset in Hj.
    rewrite aget_aset_eq in Hw by done. by simplify_eq.
  - right. by rewrite aget_aset_ne in Hw.
Qed.

(** ** Loops *)

Lemma for_range_ind {T} (P : Z → T → Prop) (body : Z → T → T) n :
  ∀ lo s,
    P lo s →
    (∀ i s', lo ≤ i < lo + Z.of_nat n → P i s' → P (i + 1) (body i s')) →
    P (lo + Z.of_nat n) (for_range n lo body s).
Proof.
  induction n as [|n IH]; intros lo s Hs Hbody; simpl.
  - by replace (lo + Z.of_nat 0) with lo by lia.
  - replace (lo + Z.of_nat (S n)) with ((lo + 1) + Z.of_nat n) by lia.
    apply IH.
    + apply Hbody; [lia|done].
    + intros i s' Hi. apply Hbody. lia.
Qed.

Lemma for_loop_ind {T} (P : Z → T → Prop) (body : Z → T → T) lo hi s :
  lo ≤ hi →
  P lo s →
  (∀ i s', lo ≤ i < hi → P i s' → P (i + 1) (body i s')) →
  P hi (for_loop lo hi body s).
Proof.
  intros Hle Hs Hbody. unfold for_loop.
  replace hi with (lo + Z.of_nat (Z.to_nat (hi - lo))) at 1 by lia.
  apply for_range_ind; [done|].
  intros i s' Hi. apply Hbody. lia.
Qed.

(** Two loops that run in step keep a relation between their states. *)
Lemma for_range_sim {A B} (R : Z → A → B → Prop)
    (body : Z → A → A) (body' : Z → B → B) n :
  ∀ lo s s',
    R lo s s' →
    (∀ i s s', lo ≤ i < lo + Z.of_nat n → R i s s' →
               R (i + 1) (body i s) (body' i s')) →
    R (lo + Z.of_nat n) (for_range n lo body s) (for_range n lo body' s').
Proof.
  induction n as [|n IH]; intros lo s s' Hs Hbody; simpl.
  - by replace (lo + Z.of_nat 0) with lo by lia.
  - replace (lo + Z.of_nat (S n)) with ((lo + 1) + Z.of_nat n) by lia.
    apply IH.
    + apply Hbody; [lia|done].
    + intros i t t' Hi. apply Hbody. lia.
Qed.

Lemma for_loop_sim {A B} (R : Z → A → B → Prop)
    (body : Z → A → A) (body' : Z → B → B) lo hi s s' :
  lo ≤ hi →
  R lo s s' →
  (∀ i s s', lo ≤ i < hi → R i s s' → R (i + 1) (body i s) (body' i s')) →
  R hi (for_loop lo hi body s) (for_loop lo hi body' s').
Proof.
  intros Hle Hs Hbody. unfold for_loop.
  replace hi with (lo + Z.of_nat (Z.to_nat (hi - lo))) at 1 by lia.
  apply for_range_sim; [done|].
  intros i t t' Hi. apply Hbody. lia.
Qed.

Lemma for_range_id {T} (body : Z → T → T) :
  (∀ i s, body i s = s) → ∀ n lo s, for_range n lo body s = s.
Proof.
  intros Hid. induction n as [|n IH]; intros lo s; simpl; [done|].
  by rewrite Hid, IH.
Qed.

(** ** The largest amount *)

Lemma fold_max_ge (tiers : list RPPackage) :
  ∀ m, m ≤ fold_left (λ max t, Z.max max (rp t)) tiers m.
Proof.
  induction tiers as [|t tiers IH]; intros m; simpl; [lia|].
  specialize (IH (Z.max m (rp t))). lia.
Qed.

Lemma fold_max_elem (tiers : list RPPackage) t :
  t ∈ tiers → ∀ m, rp t ≤ fold_left (λ max t, Z.max max (rp t)) tiers m.
Proof.
  induction 1 as [t tiers|t t' tiers _ IH]; intros m; simpl.
  - pose proof (fold_max_ge tiers (Z.max m (rp t))). lia.
  - apply IH.
Qed.

Lemma maxRP_nonneg tiers : 0 ≤ maxRP tiers.
Proof. apply fold_max_ge. Qed.

Lemma maxRP_ge tiers t : t ∈ tiers → rp t ≤ maxRP tiers.
Proof. intros Ht. by apply fold_max_elem. Qed.

(** [maxRP] is the largest amount of the catalogue, or the initial 0 of the
    reduction when no amount exceeds it. *)
Lemma maxRP_attained tiers :
  maxRP tiers = 0 ∨ ∃ t, t ∈ tiers ∧ rp t = maxRP tiers.
Proof.
  unfold maxRP. generalize 0.
  induction tiers as [|t tiers IH]; intros m; simpl; [by left|].
  destruct (IH (Z.max m (rp t))) as [Heq|(u & Hu & Heq)].
  - rewrite Heq. destruct (Z.max_spec m (rp t)) as [[_ ->]|[_ ->]].
    + right. exists t. split; [left|done].
    + by left.
  - right. exists u. split; [by right|done].
Qed.

(** ** Sums *)

Lemma sum_rp_app ms1 ms2 : sum_rp (ms1 ++ ms2) = sum_rp ms1 + sum_rp ms2.
Proof. induction ms1 as [|t ms1 IH]; simpl; lia. Qed.

Lemma sum_price_app ms1 ms2 :
  sum_price (ms1 ++ ms2) = sum_price ms1 + sum_price ms2.
Proof. induction ms1 as [|t ms1 IH]; simpl; lia. Qed.

Lemma sum_rp_replicate (n : nat) t :
  sum_rp (replicate n t) = Z.of_nat n * rp t.
Proof. induction n as [|n IH]; simpl; lia. Qed.

Lemma sum_price_replicate (n : nat) t :
  sum_price (replicate n t) = Z.of_nat n * price_Z t.
Proof. induction n as [|n IH]; simpl; lia. Qed.

(** ** Reachable amounts *)

(** Copies of one package reach the window of its width above any amount. *)
Lemma replicate_reach t n :
  0 < rp t → 0 ≤ n →
  ∃ k : nat, n ≤ sum_rp (replicate k t) < n + rp t.
Proof.
  intros Hpos Hn. revert n Hn. apply natlike_ind.
  - exists 0%nat. simpl. lia.
  - intros n Hn (k & Hk).
    destruct (decide (sum_rp (replicate k t) = n)) as [Heq|Hne].
    + exists (S k). simpl. lia.
    + exists k. lia.
Qed.

(** ** The back-pointer walk *)

Lemma walk_fuel_mono par fuel :
  ∀ fuel' curr l,
    (fuel ≤ fuel')%nat → walk fuel par curr = Some l →
    walk fuel' par curr = Some l.
Proof.
  induction fuel as [|fuel IH]; intros fuel' curr l Hle; simpl; [done|].
  destruct fuel' as [|fuel']; [lia|]. simpl.
  destruct (0 <? curr); [|done].
  destruct (aget par curr) as [[lk|]|]; [|done..].
  destruct (walk fuel par (prevRP lk)) as [rest|] eqn:Hrest; [|done].
  rewrite (IH fuel' _ rest) by (done || lia). done.
Qed.

(** Strictly decreasing back pointers make the walk finish within [curr]
    iterations. *)
Lemma walk_total par :
  (∀ j lk, aget par j = Some (Some lk) → 0 ≤ prevRP lk < j) →
  ∀ fuel curr, (Z.to_nat curr < fuel)%nat → is_Some (walk fuel par curr).
Proof.
  intros Hpar. induction fuel as [|fuel IH]; intros curr Hfuel; [lia|].
  simpl. destruct (Z.ltb_spec 0 curr) as [Hpos|]; [|done].
  destruct (aget par curr) as [[lk|]|] eqn:Hcurr; [|done..].
  destruct (IH (prevRP lk)) as [rest ->]; [|done].
  specialize (Hpar _ _ Hcurr). lia.
Qed.

Lemma walk_step_det par x y z :
  walk_step par x y → walk_step par x z → y = z.
Proof.
  intros Hy Hz. destruct Hy as [curr acc lk Hpos Hlk].
  inversion Hz as [? ? lk' _ Hlk']. by simplify_eq.
Qed.

Lemma walk_nsteps_det par n x :
  ∀ y z, nsteps (walk_step par) n x y → nsteps (walk_step par) n x z → y = z.
Proof.
  revert x. induction n as [|n IH]; intros x y z Hy Hz.
  - inversion Hy. inversion Hz. by simplify_eq.
  - inversion Hy as [|? ? y' ? Hxy Hrest]. inversion Hz as [|? ? z' ? Hxz Hrest'].
    simplify_eq. rewrite (walk_step_det _ _ _ _ Hxy Hxz) in Hrest.
    by eapply IH.
Qed.

(** The loop makes one iteration per package returned and stops where no
    iteration is possible. *)
Lemma walk_nsteps par fuel :
  ∀ curr l acc,
    walk fuel par curr = Some l →
    ∃ last,
      nsteps (walk_step par) (length l) (curr, acc) (last, acc ++ l) ∧
      ∀ s, ¬ walk_step par (last, acc ++ l) s.
Proof.
  induction fuel as [|fuel IH]; intros curr l acc; simpl; [done|].
  destruct (Z.ltb_spec 0 curr) as [Hpos|Hneg].
  - destruct (aget par curr) as [[lk|]|] eqn:Hcurr.
    + destruct (walk fuel par (prevRP lk)) as [rest|] eqn:Hrest; [|done].
      intros [= <-].
      destruct (IH _ _ (acc ++ [tier lk]) Hrest) as (last & Hsteps & Hstuck).
      rewrite <- (assoc_L (++)) in Hsteps, Hstuck. exists last. split; [|done].
      eapply nsteps_l; [by constructor|done].
    + intros [= <-]. exists curr. rewrite (right_id_L [] (++)).
      split; [constructor|]. intros s Hs. inversion Hs. congruence.
    + intros [= <-]. exists curr. rewrite (right_id_L [] (++)).
      split; [constructor|]. intros s Hs. inversion Hs. congruence.
  - intros [= <-]. exists curr. rewrite (right_id_L [] (++)).
    split; [constructor|]. intros s Hs. inversion Hs. lia.
Qed.

(** ** The program over the integers is correct *)

Module ExactFacts.
Import Exact.

(** ** The selection scan *)

Lemma scan_step_inv d targetRP i s :
  targetRP ≤ i →
  scan_inv d targetRP i s → scan_inv d targetRP (i + 1) (scan_step d i s).
Proof.
  intros Hi. destruct s as [m b]. unfold scan_inv, scan_step; simpl.
  destruct (aget d i) as [[q'|]|] eqn:Hd; destruct m as [p|]; simpl.
  - destruct (Z.ltb_spec q' p) as [Hlt|Hge]; simpl.
    + intros (Hb & Hdb & Hmin). split_and!; [lia|lia|done|].
      intros j q Hj Hdj. destruct (decide (j = i)) as [->|Hne].
      * rewrite Hd in Hdj. simplify_eq. lia.
      * destruct (Hmin j q) as [Hle _]; [lia|done|]. lia.
    + intros (Hb & Hdb & Hmin). split_and!; [lia|lia|done|].
      intros j q Hj Hdj. destruct (decide (j = i)) as [->|Hne].
      * rewrite Hd in Hdj. simplify_eq. lia.
      * apply Hmin; [lia|done].
  - intros [-> Hnone]. split_and!; [lia|lia|done|].
    intros j q Hj Hdj. destruct (decide (j = i)) as [->|Hne].
    + rewrite Hd in Hdj. simplify_eq. lia.
    + exfalso. apply (Hnone j q); [lia|done].
  - intros (Hb & Hdb & Hmin). split_and!; [lia|lia|done|].
    intros j q Hj Hdj. destruct (decide (j = i)) as [->|Hne].
    + rewrite Hd in Hdj. done.
    + apply Hmin; [lia|done].
  - intros [-> Hnone]. split; [done|].
    intros j q Hj Hdj. destruct (decide (j = i)) as [->|Hne].
    + rewrite Hd in Hdj. done.
    + apply (Hnone j q); [lia|done].
  - intros (Hb & Hdb & Hmin). split_and!; [lia|lia|done|].
    intros j q Hj Hdj. destruct (decide (j = i)) as [->|Hne].
    + rewrite Hd in Hdj. done.
    + apply Hmin; [lia|done].
  - intros [-> Hnone]. split; [done|].
    intros j q Hj Hdj. destruct (decide (j = i)) as [->|Hne].
    + rewrite Hd in Hdj. done.
    + apply (Hnone j q); [lia|done].
Qed.

Lemma select_best_inv d targetRP maxPossibleRP :
  targetRP ≤ maxPossibleRP + 1 →
  scan_inv d targetRP (maxPossibleRP + 1)
    (select_best d targetRP maxPossibleRP).
Proof.
  intros Hle. unfold select_best.
  apply (for_loop_ind (scan_inv d targetRP)); [done| |].
  - split; [done|]. intros j q Hj. lia.
  - intros i s [Hi _]. by apply scan_step_inv.
Qed.

(** The selected amount lies in the scanned range, whatever the table. *)

(** ** The cost-table fill *)

Lemma table_le_refl i st : table_le i st st.
Proof. split; [done|]. intros j p Hj. exists p. split; [done|lia]. Qed.

Lemma table_le_trans i st1 st2 st3 :
  table_le i st1 st2 → table_le i st2 st3 → table_le i st1 st3.
Proof.
  intros [Hlow12 Hmon12] [Hlow23 Hmon23]. split.
  - intros j Hj. rewrite Hlow23, Hlow12; done.
  - intros j p Hj.
    destruct (Hmon12 j p Hj) as (p' & Hj' & Hle').
    destruct (Hmon23 j p' Hj') as (p'' & Hj'' & Hle'').
    exists p''. split; [done|lia].
Qed.

(** The two outcomes of one relaxation. *)
Lemma relax_cases C i st t :
  relax C i st t = st ∨
  ∃ c q,
    i + rp t ≤ C ∧
    aget (dp st) i = Some (Fin c) ∧
    aget (dp st) (i + rp t) = Some q ∧
    num_ltb (Fin (c + price_Z t)) q = true ∧
    relax C i st t =
      {| dp := aset (dp st) (i + rp t) (Fin (c + price_Z t));
         parent := aset (parent st) (i + rp t)
                     (Some {| tier := t; prevRP := i |}) |}.
Proof.
  unfold relax. destruct (Z.leb_spec (i + rp t) C) as [Hle|]; [|by left].
  destruct (aget (dp st) i) as [[c|]|] eqn:Hi; [| |by left].
  - destruct (aget (dp st) (i + rp t)) as [q|] eqn:Hn; [|by left].
    cbn [num_add]. destruct (num_ltb (Fin (c + price_Z t)) q) eqn:Hlt; [|by left].
    right. exists c, q. done.
  - destruct (aget (dp st) (i + rp t)); by left.
Qed.

Lemma relax_le C i st t : 0 < rp t → table_le i st (relax C i st t).
Proof.
  intros Hrp.
  destruct (relax_cases C i st t) as [->|(c & q & HC & Hi & Hn & Hlt & ->)];
    [apply table_le_refl|].
  split; simpl.
  - intros j Hj. apply aget_aset_ne. lia.
  - intros j p Hj. destruct (decide (j = i + rp t)) as [->|Hne].
    + rewrite aget_aset_eq by (by eapply aget_Some).
      exists (c + price_Z t). split; [done|].
      rewrite Hn in Hj. simplify_eq. simpl in Hlt. lia.
    + rewrite aget_aset_ne by done. exists p. split; [done|lia].
Qed.

(** After relaxing [t] from [i], the amount [i + rp t] costs no more than
    the way through [i]. *)
Lemma relax_covered C i st t c :
  0 < rp t →
  i + rp t ≤ C →
  aget (dp st) i = Some (Fin c) →
  is_Some (aget (dp st) (i + rp t)) →
  ∃ p, aget (dp (relax C i st t)) (i + rp t) = Some (Fin p) ∧
       p ≤ c + price_Z t.
Proof.
  intros Hrp HC Hi [q Hn]. unfold relax.
  destruct (Z.leb_spec (i + rp t) C); [|lia].
  rewrite Hi, Hn. cbn [num_add].
  destruct (num_ltb (Fin (c + price_Z t)) q) eqn:Hlt; cbn [dp].
  - rewrite aget_aset_eq by (by eapply aget_Some). eauto with lia.
  - destruct q as [p|]; [|done]. simpl in Hlt. exists p. split; [done|lia].
Qed.

Section fill.
Variables (tiers : list RPPackage) (C : Z).
Hypothesis Hrp : ∀ t, t ∈ tiers → 0 < rp t.
Hypothesis HC : 0 ≤ C.

Lemma sum_rp_nonneg ms : Forall (λ x, x ∈ tiers) ms → 0 ≤ sum_rp ms.
Proof.
  induction 1 as [|t ms Ht _ IH]; simpl; [done|].
  specialize (Hrp t Ht). lia.
Qed.

Lemma table_wf_weaken k k' st :
  k ≤ k' → table_wf tiers C k st → table_wf tiers C k' st.
Proof.
  intros Hk [Hsize Hlen Hzero Hpar Hsound].
  split; [done..|].
  intros j p Hj Hdj.
  destruct (Hsound j p Hj Hdj) as (lk & ? & ? & ? & ? & ?).
  exists lk. split_and!; [done..|lia|done].
Qed.

Lemma table_opt_le k i st st' :
  table_le i st st' → table_opt tiers C k st → table_opt tiers C k st'.
Proof.
  intros [_ Hmon] Hopt ms t Hms Ht Hk HCle.
  destruct (Hopt ms t Hms Ht Hk HCle) as (p & Hp & Hle).
  destruct (Hmon _ _ Hp) as (p' & Hp' & Hle').
  exists p'. split; [done|lia].
Qed.

Lemma relax_wf i st t :
  0 ≤ i → t ∈ tiers →
  table_wf tiers C (i + 1) st → table_wf tiers C (i + 1) (relax C i st t).
Proof.
  intros Hi Ht Hwf.
  destruct (relax_cases C i st t) as [->|(c & q & Hle & Hdi & Hn & Hlt & ->)];
    [done|].
  pose proof (Hrp t Ht) as Hpos.
  pose proof (aget_Some _ _ _ Hn) as Hrange.
  destruct Hwf as [Hsize Hlen Hzero Hpar Hsound].
  split; simpl.
  - by rewrite length_aset.
  - by rewrite !length_aset.
  - rewrite aget_aset_ne by lia. done.
  - intros j lk. destruct (decide (j = i + rp t)) as [->|Hne].
    + rewrite aget_aset_eq by (rewrite Hlen; done).
      intros [= <-]. simpl. lia.
    + rewrite aget_aset_ne by done. apply Hpar.
  - intros j p Hj. destruct (decide (j = i + rp t)) as [->|Hne].
    + rewrite !aget_aset_eq by (rewrite ?Hlen; done).
      intros [= <-]. eexists. split; [done|]. simpl.
      split_and!; [done|done|lia|].
      rewrite aget_aset_ne by lia. rewrite Hdi. do 2 f_equal. lia.
    + rewrite !aget_aset_ne by done. intros Hdj.
      destruct (Hsound j p Hj Hdj) as (lk & ? & ? & ? & ? & ?).
      exists lk. split_and!; [done..|].
      rewrite aget_aset_ne by lia. done.
Qed.

Lemma relax_fold i ts :
  0 ≤ i →
  (∀ t, t ∈ ts → t ∈ tiers) →
  ∀ st,
    table_wf tiers C (i + 1) st →
    table_wf tiers C (i + 1) (fold_left (relax C i) ts st) ∧
    table_le i st (fold_left (relax C i) ts st) ∧
    ∀ t c,
      t ∈ ts → i + rp t ≤ C → aget (dp st) i = Some (Fin c) →
      ∃ p, aget (dp (fold_left (relax C i) ts st)) (i + rp t)
             = Some (Fin p) ∧
           p ≤ c + price_Z t.
Proof.
  intros Hi. induction ts as [|t ts IH]; intros Hts st Hwf; simpl.
  - split_and!; [done|apply table_le_refl|].
    intros t c Ht. by apply elem_of_nil in Ht.
  - assert (t ∈ tiers) as Ht by (apply Hts; left).
    pose proof (Hrp t Ht) as Hpos.
    pose proof (relax_wf i st t Hi Ht Hwf) as Hwf1.
    pose proof (relax_le C i st t Hpos) as Hle1.
    destruct (IH (λ x Hx, Hts x (list_elem_of_further _ _ _ Hx)) _ Hwf1)
      as (Hwf' & Hle' & Hcov').
    split_and!; [done|by eapply table_le_trans|].
    intros u c [->|Hu]%elem_of_cons HuC Hdi.
    + destruct (relax_covered C i st t c Hpos HuC Hdi) as (p & Hp & Hple).
      { apply aget_is_Some. rewrite (wf_size _ _ _ _ Hwf). lia. }
      destruct (proj2 Hle' _ _ Hp) as (p' & Hp' & Hple').
      exists p'. split; [done|lia].
    + apply Hcov'; [done..|].
      rewrite (proj1 Hle1) by lia. done.
Qed.

(** Every multiset of amount at most [k] is accounted for. *)
Lemma table_opt_reach k st ms :
  table_wf tiers C k st → table_opt tiers C k st →
  Forall (λ x, x ∈ tiers) ms →
  sum_rp ms ≤ k → sum_rp ms ≤ C →
  ∃ p, aget (dp st) (sum_rp ms) = Some (Fin p) ∧ p ≤ sum_price ms.
Proof.
  intros Hwf Hopt Hms Hk Hle. destruct Hms as [|t ms Ht Hms]; simpl in *.
  - exists 0. split; [apply (wf_zero _ _ _ _ Hwf)|lia].
  - pose proof (Hrp t Ht) as Hpos.
    destruct (Hopt ms t Hms Ht) as (p & Hp & Hple); [lia..|].
    exists p. rewrite (Z.add_comm (rp t)). split; [done|lia].
Qed.

Lemma fill_step_opt i st :
  0 ≤ i < C →
  table_wf tiers C i st ∧ table_opt tiers C i st →
  table_wf tiers C (i + 1) (fill_step tiers C i st) ∧
  table_opt tiers C (i + 1) (fill_step tiers C i st).
Proof.
  intros Hi [Hwf Hopt].
  assert (table_wf tiers C (i + 1) st) as Hwf1
    by (eapply table_wf_weaken; [|done]; lia).
  destruct (relax_fold i tiers (proj1 Hi) (λ _ H, H) st Hwf1)
    as (Hwf' & Hle' & Hcov').
  unfold fill_step. destruct (aget (dp st) i) as [[c|]|] eqn:Hdi.
  - split; [done|].
    intros ms t Hms Ht Hk HCle.
    destruct (decide (sum_rp ms < i)) as [Hlt|Hge].
    + eapply table_opt_le; [done|done|done..].
    + destruct (table_opt_reach i st ms Hwf Hopt Hms) as (q & Hq & Hqle);
        [lia..|].
      replace (sum_rp ms) with i in * by lia.
      rewrite Hdi in Hq. simplify_eq.
      destruct (Hcov' t q Ht HCle eq_refl) as (p & Hp & Hple).
      exists p. split; [done|lia].
  - split; [done|].
    intros ms t Hms Ht Hk HCle.
    destruct (decide (sum_rp ms < i)) as [Hlt|Hge]; [by apply Hopt|].
    destruct (table_opt_reach i st ms Hwf Hopt Hms) as (q & Hq & Hqle);
      [lia..|].
    replace (sum_rp ms) with i in * by lia. congruence.
  - pose proof (aget_is_Some (dp st) i) as [? ?]; [|congruence].
    rewrite (wf_size _ _ _ _ Hwf). lia.
Qed.

Lemma init_table_inv :
  table_wf tiers C 0 (init_table C) ∧ table_opt tiers C 0 (init_table C).
Proof.
  split.
  - split; simpl.
    + rewrite length_aset, length_replicate. lia.
    + by rewrite length_aset, !length_replicate.
    + apply aget_aset_eq. rewrite length_replicate. lia.
    + intros j lk Hj. by apply aget_replicate in Hj.
    + intros j p Hj. rewrite aget_aset_ne by lia.
      intros Hdj. by apply aget_replicate in Hdj.
  - intros ms t Hms Ht Hk. pose proof (sum_rp_nonneg ms Hms). lia.
Qed.

Lemma build_table_inv :
  table_wf tiers C C (build_table tiers C) ∧
  table_opt tiers C C (build_table tiers C).
Proof.
  unfold build_table.
  apply (for_loop_ind (λ k st, table_wf tiers C k st ∧ table_opt tiers C k st));
    [done| |].
  - apply init_table_inv.
  - intros i st Hi. by apply fill_step_opt.
Qed.
End fill.

Section walk.
Variables (tiers : list RPPackage) (C k : Z) (st : table).
Hypothesis Hwf : table_wf tiers C k st.

(** From a finite cell the walk returns packages that add up to the cell's
    amount and price, one per iteration, and stops at amount 0. *)
Lemma walk_reach fuel :
  ∀ j p,
    0 ≤ j → (Z.to_nat j < fuel)%nat →
    aget (dp st) j = Some (Fin p) →
    ∃ ms, walk fuel (parent st) j = Some ms ∧
          Forall (λ x, x ∈ tiers) ms ∧
          sum_rp ms = j ∧ sum_price ms = p ∧
          ∀ acc, nsteps (walk_step (parent st)) (length ms)
                   (j, acc) (0, acc ++ ms).
Proof.
  induction fuel as [|fuel IH]; intros j p Hj Hfuel Hdj; [lia|].
  simpl. destruct (Z.ltb_spec 0 j) as [Hpos|Hzero].
  - destruct (wf_sound _ _ _ _ Hwf j p Hpos Hdj)
      as (lk & Hlk & Ht & Hsum & _ & Hprev).
    pose proof (wf_par _ _ _ _ Hwf _ _ Hlk) as Hdec.
    destruct (IH (prevRP lk) (p - price_Z (tier lk)))
      as (rest & Hrest & Hin & Hrp_rest & Hprice_rest & Hsteps);
      [lia|lia|done|].
    rewrite Hlk, Hrest. exists (tier lk :: rest).
    split_and!; simpl; [done|by constructor|lia|lia|].
    intros acc. eapply nsteps_l; [by constructor|].
    replace (acc ++ tier lk :: rest) with ((acc ++ [tier lk]) ++ rest)
      by (by rewrite <- (assoc_L (++))).
    apply Hsteps.
  - assert (j = 0) as -> by lia.
    rewrite (wf_zero _ _ _ _ Hwf) in Hdj. simplify_eq.
    exists []. split_and!; [done..|].
    intros acc. rewrite (right_id_L [] (++)). constructor.
Qed.
End walk.

Lemma exact_valid_spec tiers :
  valid_tiers tiers = true →
  (∃ t, t ∈ tiers) ∧ ∀ t, t ∈ tiers → 0 < rp t ∧ 0 < price_Z t.
Proof.
  intros Hv. split.
  - destruct tiers as [|t tiers]; [done|]. exists t. left.
  - assert (forallb (λ t, (0 <? rp t) && (0 <? price_Z t)) tiers = true)
      as Hall by (by destruct tiers).
    intros t Ht%list_elem_of_In.
    rewrite forallb_forall in Hall. specialize (Hall t Ht).
    apply andb_prop in Hall as [?%Z.ltb_lt ?%Z.ltb_lt]. done.
Qed.

(** ** The solver on valid input *)

(** Everything the solver guarantees to a caller that keeps the contract. *)
Lemma findOptimalPlan_exact_spec tiers targetRP fuel :
  valid_tiers tiers = true →
  0 < targetRP →
  (Z.to_nat (targetRP + maxRP tiers) < fuel)%nat →
  ∃ pk b p,
    findOptimalPlan fuel targetRP tiers
      = Some {| packages := pk; totalRP := b; totalPrice := Fin p |} ∧
    targetRP ≤ b ≤ targetRP + maxRP tiers ∧
    Forall (λ x, x ∈ tiers) pk ∧
    sum_rp pk = b ∧
    sum_price pk = p ∧
    (∀ ms, Forall (λ x, x ∈ tiers) ms → targetRP ≤ sum_rp ms →
           p ≤ sum_price ms ∧ (sum_price ms = p → b ≤ sum_rp ms)) ∧
    (∀ acc,
       nsteps
         (walk_step (parent (build_table tiers (targetRP + maxRP tiers))))
         (length pk) (b, acc) (0, acc ++ pk)).
Proof.
  intros Hv HT Hfuel.
  destruct (exact_valid_spec _ Hv) as [[t0 Ht0] Hpos].
  assert (∀ t, t ∈ tiers → 0 < rp t) as Hrp by (intros t Ht; by apply Hpos).
  pose proof (maxRP_nonneg tiers) as Hmax.
  unfold findOptimalPlan. destruct (Z.leb_spec targetRP 0); [lia|].
  cbv zeta. set (C := targetRP + maxRP tiers) in *.
  assert (0 ≤ C) as HC by lia.
  destruct (build_table_inv tiers C Hrp HC) as [Hwf Hopt].
  set (st := build_table tiers C) in *.
  (* some amount of the scanned range is reachable *)
  destruct (replicate_reach t0 targetRP (Hrp _ Ht0)) as (k0 & Hk0); [lia|].
  pose proof (maxRP_ge _ _ Ht0) as Ht0max.
  destruct (table_opt_reach tiers C Hrp C st (replicate k0 t0) Hwf Hopt)
    as (q0 & Hq0 & _); [by apply Forall_replicate|lia..|].
  (* hence the scan ends on a finite price *)
  pose proof (select_best_inv (dp st) targetRP C) as Hscan.
  destruct (select_best (dp st) targetRP C) as [[p|] b];
    unfold scan_inv in Hscan; simpl in Hscan.
  2:{ destruct Hscan as [_ Hnone]; [lia|].
      exfalso. apply (Hnone (sum_rp (replicate k0 t0)) q0); [lia|done]. }
  destruct Hscan as (Hb & Hdb & Hmin); [lia|].
  destruct (walk_reach tiers C C st Hwf fuel b p)
    as (pk & Hwalk & Hin & Hsum & Hprice & Hsteps); [lia|lia|done|].
  rewrite Hwalk. exists pk, b, p.
  split_and!; [done|lia|lia|done|done|done| |done].
  (* a multiset beyond the ceiling stays above the target without its head *)
  intros ms Hms. induction Hms as [|t ms Ht Hms IH]; simpl; [lia|].
  intros Hge. destruct (Hpos t Ht) as [Hrpt Hpricet].
  destruct (decide (rp t + sum_rp ms ≤ C)) as [Hle|Hgt].
  - destruct (table_opt_reach tiers C Hrp C st (t :: ms) Hwf Hopt)
      as (q & Hq & Hqle); [by constructor|done..|].
    simpl in Hq, Hqle.
    destruct (Hmin (rp t + sum_rp ms) q) as [Hpq Htie]; [lia|done|].
    split; [lia|]. intros Heq. apply Htie. lia.
  - pose proof (maxRP_ge _ _ Ht) as Htmax.
    destruct IH as [Hple _]; lia.
Qed.

Lemma exact_valid_intro tiers :
  tiers ≠ [] →
  (∀ t, t ∈ tiers → 0 < rp t ∧ 0 < price_Z t) →
  valid_tiers tiers = true.
Proof.
  intros Hne Hpos.
  assert (forallb (λ t, (0 <? rp t) && (0 <? price_Z t)) tiers = true) as Hall.
  { apply forallb_forall. intros t Ht%list_elem_of_In.
    destruct (Hpos t Ht) as [?%Z.ltb_lt ?%Z.ltb_lt].
    by apply andb_true_intro. }
  by destruct tiers.
Qed.

End ExactFacts.

(** ** Arithmetic on numbers *)

Lemma shl_val q k : Z.pos (shl q k) = Z.pos q * 2 ^ Z.of_nat k.
Proof.
  induction k as [|k IH]; [simpl; lia|].
  unfold shl in *. rewrite Nat2Z.inj_succ, Z.pow_succ_r by lia.
  simpl. rewrite Pos2Z.inj_xO, IH. lia.
Qed.

Lemma shl_digits q k :
  Z.pos (digits2_pos (shl q k)) = Z.pos (digits2_pos q) + Z.of_nat k.
Proof.
  induction k as [|k IH]; [simpl; lia|].
  unfold shl in *. simpl. rewrite Pos2Z.inj_succ, IH. lia.
Qed.

Lemma shl_of_val m q n :
  0 ≤ n → Z.pos m = Z.pos q * 2 ^ n → m = shl q (Z.to_nat n).
Proof.
  intros Hn Hm. apply Pos2Z.inj. rewrite shl_val, Z2Nat.id by done. done.
Qed.

Lemma shl_add q j k : shl q (j + k) = shl (shl q k) j.
Proof. unfold shl. apply Nat.iter_add. Qed.

Lemma pos_iter_shl q k : Pos.iter xO q k = shl q (Pos.to_nat k).
Proof. unfold shl. apply Pos2Nat.inj_iter. Qed.

Lemma iter_pos_nat {A} (f : A → A) p x :
  iter_pos f p x = Nat.iter (Pos.to_nat p) f x.
Proof.
  revert x. induction p as [p IH|p IH|]; intros x; cbn [iter_pos].
  - rewrite !IH, Pos2Nat.inj_xI, Nat.iter_succ_r.
    replace (2 * Pos.to_nat p)%nat with (Pos.to_nat p + Pos.to_nat p)%nat
      by lia.
    by rewrite Nat.iter_add.
  - rewrite !IH, Pos2Nat.inj_xO.
    replace (2 * Pos.to_nat p)%nat with (Pos.to_nat p + Pos.to_nat p)%nat
      by lia.
    by rewrite Nat.iter_add.
  - done.
Qed.

Lemma shr_shl q k :
  Nat.iter k shr_1 {| shr_m := Z.pos (shl q k); shr_r := false; shr_s := false |}
    = {| shr_m := Z.pos q; shr_r := false; shr_s := false |}.
Proof.
  induction k as [|k IH]; [done|].
  rewrite Nat.iter_succ_r. unfold shl in *. simpl. apply IH.
Qed.

Lemma digits2_size p : digits2_pos p = Pos.size p.
Proof. induction p as [p IH|p IH|]; simpl; by rewrite ?IH. Qed.

Lemma digits_gt p : Z.pos p < 2 ^ Z.pos (digits2_pos p).
Proof.
  rewrite digits2_size. pose proof (Pos.size_gt p) as H.
  apply Pos2Z.pos_lt_pos in H. by rewrite Pos2Z.inj_pow in H.
Qed.

Lemma digits_le p : 2 ^ Z.pos (digits2_pos p) ≤ 2 * Z.pos p.
Proof.
  rewrite digits2_size. pose proof (Pos.size_le p) as H.
  apply Pos2Z.pos_le_pos in H. by rewrite Pos2Z.inj_pow in H.
Qed.

(** A mantissa of 53 digits is rounded to itself. *)
Lemma binary_round_aux_canonical m e :
  Z.pos (digits2_pos m) = 53 → -1074 ≤ e ≤ 971 →
  binary_round_aux 53 1024 false (Z.pos m) e loc_Exact = S754_finite false m e.
Proof.
  intros Hd He. unfold binary_round_aux, shr_fexp, fexp, emin.
  cbn [Zdigits2 shr_record_of_loc]. rewrite Hd.
  replace (Z.max (53 + e - 53) (3 - 1024 - 53) - e) with 0 by lia.
  cbn [shr shr_m loc_of_shr_record round_nearest_even Zdigits2].
  rewrite Hd.
  replace (Z.max (53 + e - 53) (3 - 1024 - 53) - e) with 0 by lia.
  cbn [shr shr_m shr_record_of_loc].
  destruct (Z.leb_spec e (1024 - 53)); [done|lia].
Qed.

(** Rounding a mantissa whose value has at most 53 digits is exact. *)
Lemma binary_round_exact m q n e :
  Z.pos (digits2_pos q) ≤ 53 →
  0 ≤ n →
  Z.pos m = Z.pos q * 2 ^ n →
  -1074 ≤ e + n - (53 - Z.pos (digits2_pos q)) ≤ 971 →
  binary_round 53 1024 false m e = normal q (e + n).
Proof.
  intros Hd Hn Hm He. apply shl_of_val in Hm as ->; [|done].
  set (d := Z.pos (digits2_pos q)) in *.
  unfold binary_round, normal, fexp, emin. rewrite shl_digits, Z2Nat.id by done.
  fold d.
  replace (Z.max (d + n + e - 53) (3 - 1024 - 53)) with (d + n + e - 53) by lia.
  unfold shl_align.
  destruct (d + n + e - 53 - e) as [|k|k] eqn:Hk.
  - (* the mantissa has 53 digits *)
    rewrite binary_round_aux_canonical; [|rewrite shl_digits; lia|lia].
    f_equal; [f_equal; lia|lia].
  - (* more: shift right, nothing is lost *)
    unfold binary_round_aux, shr_fexp, fexp, emin.
    cbn [Zdigits2 shr_record_of_loc]. rewrite shl_digits, Z2Nat.id by done.
    fold d.
    replace (Z.max (d + n + e - 53) (3 - 1024 - 53) - e) with (Z.pos k) by lia.
    cbn [shr]. rewrite iter_pos_nat.
    replace (Z.to_nat n) with (Pos.to_nat k + Z.to_nat (53 - d))%nat by lia.
    rewrite shl_add, shr_shl.
    cbn [shr_m loc_of_shr_record round_nearest_even Zdigits2].
    rewrite shl_digits, Z2Nat.id by lia. fold d.
    replace (Z.max (d + (53 - d) + (e + Z.pos k) - 53) (3 - 1024 - 53) - (e + Z.pos k))
      with 0 by lia.
    cbn [shr shr_m shr_record_of_loc].
    destruct (Z.leb_spec (e + Z.pos k) (1024 - 53)); [|lia].
    f_equal. lia.
  - (* fewer: shift left *)
    rewrite pos_iter_shl, <- shl_add.
    rewrite binary_round_aux_canonical; [|rewrite shl_digits; lia|lia].
    f_equal; [f_equal; lia|lia].
Qed.

Lemma digits_bound z :
  0 < z < 2 ^ 53 → 1 ≤ Z.pos (digits2_pos (Z.to_pos z)) ≤ 53.
Proof.
  intros Hz. split; [lia|].
  pose proof (digits_le (Z.to_pos z)) as Hle. rewrite Z2Pos.id in Hle by lia.
  assert (2 ^ Z.pos (digits2_pos (Z.to_pos z)) < 2 ^ 54) as Hlt by lia.
  apply Z.pow_lt_mono_r_iff in Hlt; lia.
Qed.

Lemma Z2num_pos z : 0 < z < 2 ^ 53 → Z2num z = normal (Z.to_pos z) 0.
Proof.
  intros Hz. pose proof (digits_bound z Hz).
  destruct z as [|p|p]; [lia| |lia]. simpl Z.to_pos in *.
  unfold Z2num, binary_normalize.
  rewrite (binary_round_exact p p 0 0); [done|lia|lia|lia|lia].
Qed.

Lemma shl_align_val mx ex ez :
  ez ≤ ex → Z.pos (fst (shl_align mx ex ez)) = Z.pos mx * 2 ^ (ex - ez).
Proof.
  intros Hle. unfold shl_align. destruct (ez - ex) as [|k|k] eqn:Hk.
  - replace (ex - ez) with 0 by lia. simpl. lia.
  - lia.
  - simpl. rewrite pos_iter_shl, shl_val. do 2 f_equal. lia.
Qed.

(** Adding integers below [2 ^ 53] is exact. *)
Lemma js_add_exact a b :
  0 ≤ a → 0 < b → a + b < 2 ^ 53 →
  js_add (Z2num a) (Z2num b) = Z2num (a + b).
Proof.
  intros Ha Hb Hab. rewrite (Z2num_pos b) by lia.
  destruct (decide (a = 0)) as [->|Hne];
    [by rewrite Z.add_0_l, (Z2num_pos b) by lia|].
  rewrite (Z2num_pos a), (Z2num_pos (a + b)) by lia.
  pose proof (digits_bound a ltac:(lia)) as Hda.
  pose proof (digits_bound b ltac:(lia)) as Hdb.
  pose proof (digits_bound (a + b) ltac:(lia)) as Hdab.
  unfold js_add, normal, SFadd. cbn [cond_Zopp].
  set (ka := 53 - Z.pos (digits2_pos (Z.to_pos a))) in *.
  set (kb := 53 - Z.pos (digits2_pos (Z.to_pos b))) in *.
  set (ez := Z.min (0 - ka) (0 - kb)).
  rewrite !shl_align_val by lia. rewrite !shl_val, !Z2Nat.id by lia.
  rewrite !Z2Pos.id by lia.
  rewrite <- !Z.mul_assoc, <- !Z.pow_add_r by lia.
  replace (ka + (0 - ka - ez)) with (- ez) by lia.
  replace (kb + (0 - kb - ez)) with (- ez) by lia.
  rewrite <- Z.mul_add_distr_r.
  assert (0 < 2 ^ (- ez)) as Hpow by (apply Z.pow_pos_nonneg; lia).
  destruct ((a + b) * 2 ^ (- ez)) as [|s|s] eqn:Hs; [nia| |nia].
  unfold binary_normalize.
  rewrite (binary_round_exact s (Z.to_pos (a + b)) (- ez) ez);
    [|lia|lia|by rewrite Z2Pos.id by lia|lia].
  unfold normal. f_equal; lia.
Qed.

(** Comparing integers below [2 ^ 53] is exact. *)
Lemma js_lt_exact a b :
  0 ≤ a < 2 ^ 53 → 0 ≤ b < 2 ^ 53 → js_lt (Z2num a) (Z2num b) = (a <? b).
Proof.
  intros Ha Hb.
  destruct (decide (a = 0)) as [->|Hane], (decide (b = 0)) as [->|Hbne].
  - done.
  - rewrite (Z2num_pos b) by lia. simpl. symmetry. apply Z.ltb_lt. lia.
  - rewrite (Z2num_pos a) by lia. simpl. symmetry. apply Z.ltb_ge. lia.
  - rewrite (Z2num_pos a), (Z2num_pos b) by lia.
    pose proof (digits_bound a ltac:(lia)) as Hda.
    pose proof (digits_bound b ltac:(lia)) as Hdb.
    pose proof (digits_gt (Z.to_pos a)) as Hga.
    pose proof (digits_gt (Z.to_pos b)) as Hgb.
    pose proof (digits_le (Z.to_pos a)) as Hla.
    pose proof (digits_le (Z.to_pos b)) as Hlb.
    rewrite Z2Pos.id in Hga, Hgb, Hla, Hlb by lia.
    unfold js_lt, SFltb, normal, SFcompare.
    set (da := Z.pos (digits2_pos (Z.to_pos a))) in *.
    set (db := Z.pos (digits2_pos (Z.to_pos b))) in *.
    destruct (Z.compare_spec (0 - (53 - da)) (0 - (53 - db))) as [He|He|He].
    + assert (da = db) as Hd by lia. rewrite Hd.
      change (Pos.compare_cont Eq ?x ?y) with (Z.compare (Z.pos x) (Z.pos y)).
      rewrite !shl_val, !Z2Pos.id by lia.
      assert (0 < 2 ^ Z.of_nat (Z.to_nat (53 - db))) as Hpow
        by (apply Z.pow_pos_nonneg; lia).
      destruct (Z.compare_spec (a * 2 ^ Z.of_nat (Z.to_nat (53 - db)))
                  (b * 2 ^ Z.of_nat (Z.to_nat (53 - db))));
        destruct (Z.ltb_spec a b); try done; nia.
    + assert (2 ^ da ≤ 2 ^ (db - 1)) as Hpow
        by (apply Z.pow_le_mono_r; lia).
      replace (2 ^ db) with (2 * 2 ^ (db - 1)) in Hlb
        by (rewrite <- Z.pow_succ_r by lia; f_equal; lia).
      symmetry. apply Z.ltb_lt. lia.
    + assert (2 ^ db ≤ 2 ^ (da - 1)) as Hpow
        by (apply Z.pow_le_mono_r; lia).
      replace (2 ^ da) with (2 * 2 ^ (da - 1)) in Hla
        by (rewrite <- Z.pow_succ_r by lia; f_equal; lia).
      symmetry. apply Z.ltb_ge. lia.
Qed.

Lemma Z2num_inj a b :
  0 ≤ a < 2 ^ 53 → 0 ≤ b < 2 ^ 53 → Z2num a = Z2num b → a = b.
Proof.
  intros Ha Hb Heq.
  pose proof (js_lt_exact a b Ha Hb) as Hab.
  pose proof (js_lt_exact b a Hb Ha) as Hba.
  rewrite Heq in Hab. rewrite <- Heq in Hba at 1.
  rewrite js_lt_exact in Hab, Hba by done.
  destruct (Z.ltb_spec a b), (Z.ltb_spec b a); (done || lia).
Qed.

Lemma Z2num_finite a :
  0 ≤ a < 2 ^ 53 →
  js_lt (Z2num a) Infinity = true ∧ js_eq (Z2num a) Infinity = false ∧
  js_add Infinity (Z2num a) = Infinity.
Proof.
  intros Ha. destruct (decide (a = 0)) as [->|Hne]; [done|].
  by rewrite Z2num_pos by lia.
Qed.

Lemma number_Z_Z2num a : 0 ≤ a < 2 ^ 53 → number_Z (Z2num a) = a.
Proof.
  intros Ha. destruct (decide (a = 0)) as [->|Hne]; [done|].
  rewrite Z2num_pos by lia. pose proof (digits_bound a ltac:(lia)) as Hd.
  unfold normal, number_Z. cbn [cond_Zopp].
  rewrite shl_val, Z2Pos.id, Z2Nat.id by lia.
  replace (0 - (53 - Z.pos (digits2_pos (Z.to_pos a))))
    with (- (53 - Z.pos (digits2_pos (Z.to_pos a)))) by lia.
  rewrite Z.shiftl_opp_r, Z.shiftr_div_pow2 by lia.
  apply Z.div_mul. apply Z.pow_nonzero; lia.
Qed.

(** One shift to the right halves a mantissa that is not negative. *)
Lemma shr_1_m mrs : 0 ≤ shr_m mrs → shr_m (shr_1 mrs) = shr_m mrs / 2.
Proof.
  destruct mrs as [m r s]. cbn [shr_m]. intros Hm.
  destruct m as [|[p|p|]|p]; cbn [shr_1 shr_m]; [done| | |done|lia].
  - rewrite Pos2Z.inj_xI. apply (Z.div_unique _ _ _ 1); lia.
  - rewrite Pos2Z.inj_xO. apply (Z.div_unique _ _ _ 0); lia.
Qed.

Lemma shr_iter_m (k : nat) mrs :
  0 ≤ shr_m mrs →
  shr_m (Nat.iter k shr_1 mrs) = shr_m mrs / 2 ^ Z.of_nat k.
Proof.
  intros Hm. induction k as [|k IH]; [by rewrite Z.div_1_r|].
  rewrite Nat.iter_succ, shr_1_m, IH.
  - rewrite Nat2Z.inj_succ, Z.pow_succ_r, Z.div_div by lia.
    f_equal. lia.
  - rewrite IH. apply Z.div_pos; lia.
Qed.

(** Shifting a positive mantissa to its precision leaves it positive. *)
Lemma shr_fexp_pos m e l :
  0 < m → -52 ≤ e →
  0 < shr_m (shr_fexp 53 1024 m e l).1 ∧ -52 ≤ (shr_fexp 53 1024 m e l).2.
Proof.
  intros Hm He. destruct m as [|p|p]; [lia| |lia].
  unfold shr_fexp, fexp, emin. cbn [Zdigits2].
  assert (shr_m (shr_record_of_loc (Z.pos p) l) = Z.pos p) as Hrec
    by (by destruct l as [|[]]).
  set (d := Z.pos (digits2_pos p)).
  replace (Z.max (d + e - 53) (3 - 1024 - 53) - e) with (d - 53) by lia.
  destruct (d - 53) as [|k|k] eqn:Hk; cbn [shr fst snd].
  - rewrite Hrec. lia.
  - rewrite iter_pos_nat, shr_iter_m, Hrec by lia.
    split; [|lia]. rewrite positive_nat_Z.
    pose proof (digits_le p) as Hle. fold d in Hle.
    replace d with (Z.pos k + 53) in Hle by lia.
    rewrite Z.pow_add_r in Hle by lia.
    apply Z.div_str_pos. split; [lia|].
    assert (0 < 2 ^ Z.pos k) by (apply Z.pow_pos_nonneg; lia).
    nia.
  - rewrite Hrec. lia.
Qed.

Lemma round_nearest_even_pos m l : 0 < m → 0 < round_nearest_even m l.
Proof.
  intros Hm. destruct l as [|[]]; cbn [round_nearest_even]; [done| |done|lia].
  destruct (Z.even m); lia.
Qed.

(** Rounding a positive mantissa gives a number of the sign asked for,
    finite or infinite, never zero. *)
Lemma binary_round_aux_sign sx m e l :
  0 < m → -52 ≤ e →
  (∃ q e', binary_round_aux 53 1024 sx m e l = S754_finite sx q e') ∨
  binary_round_aux 53 1024 sx m e l = S754_infinity sx.
Proof.
  intros Hm He. unfold binary_round_aux.
  pose proof (shr_fexp_pos m e l Hm He) as [Hm1 He1].
  destruct (shr_fexp 53 1024 m e l) as [mrs1 e1]. cbn [fst snd] in *.
  pose proof (shr_fexp_pos _ e1 loc_Exact
                (round_nearest_even_pos _ (loc_of_shr_record mrs1) Hm1) He1)
    as [Hm2 He2].
  destruct (shr_fexp 53 1024 _ e1 loc_Exact) as [mrs2 e2].
  cbn [fst snd] in *.
  destruct (shr_m mrs2) as [|q|q]; [lia| |lia].
  destruct (e2 <=? 1024 - 53); [left; by eexists _, _|by right].
Qed.

Lemma Z2num_shape (sx : bool) p :
  (∃ q e, binary_round 53 1024 sx p 0 = S754_finite sx q e) ∨
  binary_round 53 1024 sx p 0 = S754_infinity sx.
Proof.
  unfold binary_round, fexp, emin.
  set (d := Z.pos (digits2_pos p)).
  replace (Z.max (d + 0 - 53) (3 - 1024 - 53)) with (d - 53) by lia.
  unfold shl_align.
  destruct (d - 53 - 0) as [|k|k] eqn:Hk;
    apply binary_round_aux_sign; lia.
Qed.

(** Comparing the number of an integer with 0 is comparing the integer
    with 0, however large it is. *)
Lemma Z2num_sign v :
  js_lt (Z2num 0) (Z2num v) = (0 <? v) ∧
  js_lt (Z2num v) (Z2num 0) = (v <? 0).
Proof.
  destruct v as [|p|p]; [done|..]; unfold Z2num, binary_normalize.
  - by destruct (Z2num_shape false p) as [(q & e & ->)| ->].
  - by destruct (Z2num_shape true p) as [(q & e & ->)| ->].
Qed.

Lemma Z2num_positive v : 0 < v → js_lt (Z2num 0) (Z2num v) = true.
Proof. intros Hv. rewrite (proj1 (Z2num_sign v)). by apply Z.ltb_lt. Qed.

(** Whatever is below some number is below [Infinity], and is not it. *)
Lemma js_lt_Infinity v x :
  js_lt v x = true → js_lt v Infinity = true ∧ js_eq v Infinity = false.
Proof.
  unfold js_lt, js_eq, SFltb, SFeqb, Infinity.
  destruct v as [s|[]| |[] m e], x as [s'|[]| |[] m' e']; simpl; try done.
Qed.

Lemma js_lt_Infinity_l x : js_lt Infinity x = false.
Proof. by destruct x as [s|[]| |[] m e]. Qed.

Lemma js_eq_Infinity c : js_eq c Infinity = true → c = Infinity.
Proof. by destruct c as [s|[]| |[] m e]. Qed.

Lemma number_eqb_eq x y : number_eqb x y = true → x = y.
Proof.
  destruct x as [s|s| |s m e], y as [s'|s'| |s' m' e']; simpl; try done.
  - by intros ->%Bool.eqb_prop.
  - by intros ->%Bool.eqb_prop.
  - intros [[->%Bool.eqb_prop ->%Pos.eqb_eq]%andb_prop ->%Z.eqb_eq]%andb_prop.
    done.
Qed.

Lemma number_eqb_refl x : number_eqb x x = true.
Proof.
  destruct x as [s|s| |s m e]; simpl; rewrite ?Bool.eqb_reflx; try done.
  by rewrite Pos.eqb_refl, Z.eqb_refl.
Qed.

(** ** Catalogues of exact prices *)

Lemma exact_prices_spec C tiers :
  exact_prices C tiers = true →
  ∀ t, t ∈ tiers →
       0 < rp t ∧ price t = Z2num (price_Z t) ∧
       0 < price_Z t ∧ price_Z t * C < 2 ^ 53.
Proof.
  unfold exact_prices. rewrite forallb_forall.
  intros Hall t Ht%list_elem_of_In. specialize (Hall t Ht).
  apply andb_prop in Hall as [Hall ?%Z.ltb_lt].
  apply andb_prop in Hall as [Hall ?%Z.ltb_lt].
  apply andb_prop in Hall as [?%Z.ltb_lt ?%number_eqb_eq].
  done.
Qed.

Lemma exact_prices_intro C tiers :
  0 < C →
  (∀ t, t ∈ tiers →
        0 < rp t ∧ ∃ v, price t = Z2num v ∧ 0 < v ∧ v * C < 2 ^ 53) →
  exact_prices C tiers = true.
Proof.
  intros HC Hall. unfold exact_prices. apply forallb_forall.
  intros t Ht%list_elem_of_In.
  destruct (Hall t Ht) as (Hrp & v & Hv & Hpos & Hbound).
  assert (price_Z t = v) as Hpz.
  { unfold price_Z. rewrite Hv. apply number_Z_Z2num. nia. }
  rewrite Hpz, Hv, number_eqb_refl.
  by rewrite (proj2 (Z.ltb_lt _ _) Hrp), (proj2 (Z.ltb_lt _ _) Hpos),
    (proj2 (Z.ltb_lt _ _) Hbound).
Qed.

Lemma exact_prices_mono C C' tiers :
  0 ≤ C' ≤ C → exact_prices C tiers = true → exact_prices C' tiers = true.
Proof.
  intros HC Hex. pose proof (exact_prices_spec _ _ Hex) as Hall.
  unfold exact_prices. apply forallb_forall. intros t Ht%list_elem_of_In.
  destruct (Hall t Ht) as (Hrp & Hv & Hpos & Hbound).
  rewrite <- Hv, number_eqb_refl.
  rewrite (proj2 (Z.ltb_lt _ _) Hrp), (proj2 (Z.ltb_lt _ _) Hpos). simpl.
  apply Z.ltb_lt. nia.
Qed.

Lemma valid_tiers_spec targetRP tiers :
  valid_tiers targetRP tiers = true →
  tiers ≠ [] ∧ exact_prices (targetRP + maxRP tiers) tiers = true.
Proof. by destruct tiers. Qed.

Lemma valid_tiers_intro targetRP tiers :
  tiers ≠ [] →
  exact_prices (targetRP + maxRP tiers) tiers = true →
  valid_tiers targetRP tiers = true.
Proof. by destruct tiers. Qed.

Lemma valid_tiers_Exact targetRP tiers :
  valid_tiers targetRP tiers = true → Exact.valid_tiers tiers = true.
Proof.
  intros [Hne Hex]%valid_tiers_spec.
  apply ExactFacts.exact_valid_intro; [done|].
  intros t Ht. by destruct (exact_prices_spec _ _ Hex t Ht) as (? & _ & ? & _).
Qed.

(** ** The solver on arbitrary input *)

(** The two outcomes of one relaxation. *)
Lemma relax_outcome C i st t :
  relax C i st t = st ∨
  ∃ ci cn,
    aget (dp st) i = Some ci ∧
    aget (dp st) (i + rp t) = Some cn ∧
    js_lt (js_add ci (price t)) cn = true ∧
    relax C i st t =
      {| dp := aset (dp st) (i + rp t) (js_add ci (price t));
         parent := aset (parent st) (i + rp t)
                     (Some {| tier := t; prevRP := i |}) |}.
Proof.
  unfold relax. destruct (i + rp t <=? C); [|by left].
  destruct (aget (dp st) i) as [ci|] eqn:Hci; [|by left].
  destruct (aget (dp st) (i + rp t)) as [cn|] eqn:Hn; [|by left].
  destruct (js_lt (js_add ci (price t)) cn) eqn:Hlt; [|by left].
  right. by exists ci, cn.
Qed.

Lemma relax_linked C i st t : linked st → linked (relax C i st t).
Proof.
  intros Hl.
  destruct (relax_outcome C i st t) as [->|(ci & cn & _ & Hn & Hlt & ->)];
    [done|].
  intros j lk. simpl. destruct (decide (j = i + rp t)) as [->|Hne].
  - intros _. rewrite aget_aset_eq by (by eapply aget_Some).
    eexists. split; [done|]. by eapply js_lt_Infinity.
  - rewrite !aget_aset_ne by done. apply Hl.
Qed.

Lemma relax_decreasing C i st t :
  0 ≤ i → 0 < rp t →
  decreasing (parent st) → decreasing (parent (relax C i st t)).
Proof.
  intros Hi Hrp Hdec.
  destruct (relax_outcome C i st t) as [->|(ci & cn & _ & Hn & Hlt & ->)];
    [done|].
  intros j lk [[<- [= ->]]|Hj]%aget_aset_cases; [simpl; lia|by apply Hdec].
Qed.

Lemma fold_relax_inv (P : table → Prop) C i tiers :
  (∀ st t, t ∈ tiers → P st → P (relax C i st t)) →
  ∀ st, P st → P (fold_left (relax C i) tiers st).
Proof.
  induction tiers as [|t tiers IH]; intros Hstep st Hst; simpl; [done|].
  apply IH.
  - intros st' t' Ht'. apply Hstep. by right.
  - apply Hstep; [left|done].
Qed.

Lemma fill_step_inv (P : table → Prop) tiers C i st :
  (∀ st t, t ∈ tiers → P st → P (relax C i st t)) →
  P st → P (fill_step tiers C i st).
Proof.
  intros Hstep Hst. unfold fill_step.
  destruct (aget (dp st) i) as [ci|]; [destruct (js_eq ci Infinity)|];
    (done || by apply fold_relax_inv).
Qed.

Lemma build_table_linked tiers C : 0 ≤ C → linked (build_table tiers C).
Proof.
  intros HC. unfold build_table.
  apply (for_loop_ind (λ _, linked)); [done| |].
  - intros j lk Hj. by apply aget_replicate in Hj.
  - intros i st _. apply fill_step_inv. intros st' t _. apply relax_linked.
Qed.

Lemma build_table_decreasing tiers C :
  (∀ t, t ∈ tiers → 0 < rp t) → 0 ≤ C →
  decreasing (parent (build_table tiers C)).
Proof.
  intros Hrp HC. unfold build_table.
  apply (for_loop_ind (λ _ st, decreasing (parent st))); [done| |].
  - intros j lk Hj. by apply aget_replicate in Hj.
  - intros i st Hi. apply (fill_step_inv (λ st, decreasing (parent st))).
    intros st' t Ht. apply relax_decreasing; [lia|by apply Hrp].
Qed.

(** The selected amount lies in the scanned range, whatever the table. *)
Lemma select_best_range d targetRP maxPossibleRP :
  targetRP ≤ maxPossibleRP →
  targetRP ≤ (select_best d targetRP maxPossibleRP).2 ≤ maxPossibleRP.
Proof.
  intros Hle.
  assert (targetRP ≤ (select_best d targetRP maxPossibleRP).2
            ≤ Z.max targetRP (maxPossibleRP + 1 - 1)); [|lia].
  unfold select_best.
  apply (for_loop_ind (λ i s, targetRP ≤ s.2 ≤ Z.max targetRP (i - 1)));
    [lia|simpl; lia|].
  intros i [m b] Hi Hb. unfold scan_step. simpl in *.
  destruct (aget d i) as [c|]; [destruct (js_lt c m)|]; simpl; lia.
Qed.

Lemma select_best_unreachable d targetRP maxPossibleRP :
  targetRP ≤ maxPossibleRP →
  (∀ j, targetRP ≤ j ≤ maxPossibleRP → aget d j = Some Infinity) →
  select_best d targetRP maxPossibleRP = (Infinity, targetRP).
Proof.
  intros Hle Hnone. unfold select_best.
  apply (for_loop_ind (λ _ s, s = (Infinity, targetRP))); [lia|done|].
  intros i s Hi ->. unfold scan_step. by rewrite Hnone by lia.
Qed.

Lemma walk_unlinked st fuel curr :
  linked st →
  aget (dp st) curr = Some Infinity →
  walk (S fuel) (parent st) curr = Some [].
Proof.
  intros Hl Hinf. simpl. destruct (0 <? curr); [|done].
  destruct (aget (parent st) curr) as [[lk|]|] eqn:Hcurr; [|done..].
  destruct (Hl _ _ Hcurr) as (c & Hc & Hlt). by simplify_eq.
Qed.

Lemma build_table_nil C : build_table [] C = init_table C.
Proof.
  unfold build_table, for_loop. apply for_range_id.
  intros i st. unfold fill_step.
  destruct (aget (dp st) i) as [ci|]; [by destruct (js_eq ci Infinity)|done].
Qed.

Lemma findOptimalPlan_fuel_mono fuel fuel' targetRP tiers r :
  (fuel ≤ fuel')%nat →
  findOptimalPlan fuel targetRP tiers = Some r →
  findOptimalPlan fuel' targetRP tiers = Some r.
Proof.
  intros Hle. unfold findOptimalPlan.
  destruct (targetRP <=? 0); [done|]. cbv zeta.
  destruct (select_best _ _ _) as [m b].
  destruct (walk fuel _ b) as [pk|] eqn:Hwalk; [|done].
  by rewrite (walk_fuel_mono _ _ _ _ _ Hle Hwalk).
Qed.

(** A package of amount 0 and negative price makes a cell its own
    predecessor: the reconstruction then never leaves its loop. *)
Remark walk_may_diverge fuel : findOptimalPlan fuel 1 looping_tiers = None.
Proof.
  unfold findOptimalPlan. cbv zeta.
  replace (1 <=? 0) with false by done.
  set (t0 := {| id := 1; rp := 0; price := Z2num (-1) |}).
  set (t1 := {| id := 2; rp := 1; price := Z2num 1 |}).
  replace (select_best _ _ _) with (Z2num (-1), 1) by (by vm_compute).
  replace (parent _) with
    [Some {| tier := t0; prevRP := 0 |}; Some {| tier := t0; prevRP := 1 |};
     Some {| tier := t1; prevRP := 1 |}]
    by (by vm_compute).
  assert (∀ par, aget par 1 = Some (Some {| tier := t0; prevRP := 1 |}) →
                 walk fuel par 1 = None) as ->; [|done..].
  intros par Hpar. induction fuel as [|fuel IH]; [done|].
  cbn [walk]. replace (0 <? 1) with true by done.
  rewrite Hpar. cbn [prevRP]. by rewrite IH.
Qed.

(** One relaxation from a cell that was written keeps the chains. *)
Lemma relax_chained tiers C i st t :
  0 ≤ i → 0 < rp t → t ∈ tiers →
  (∀ ci, aget (dp st) i = Some ci → js_eq ci Infinity = false) →
  chained tiers st →
  chained tiers (relax C i st t) ∧
  aget (dp (relax C i st t)) i = aget (dp st) i.
Proof.
  intros Hi Hrp Ht Hguard Hch.
  destruct (relax_outcome C i st t)
    as [->|(ci' & cn & Hci & Hn & Hlt & Hrelax)]; [done|].
  rewrite Hrelax. cbn [dp parent].
  pose proof (aget_Some _ _ _ Hn) as Hrange.
  split; [|apply aget_aset_ne; lia].
  destruct Hch as [Hlen Hlink Hset]. split; cbn [dp parent].
  - by rewrite !length_aset.
  - assert (∀ k lk, aget (parent st) k = Some (Some lk) →
              ∃ lk', aget (aset (parent st) (i + rp t)
                             (Some {| tier := t; prevRP := i |})) k
                     = Some (Some lk')) as Hkeep.
    { intros k lk Hk. destruct (decide (i + rp t = k)) as [<-|Hne].
      - rewrite aget_aset_eq by (rewrite Hlen; lia). by eauto.
      - rewrite aget_aset_ne by done. by eauto. }
    intros j lk [[<- [= ->]]|Hj]%aget_aset_cases; cbn [tier prevRP].
    + split_and!; [done..|].
      destruct (decide (i = 0)) as [->|Hne]; [by left|right].
      destruct (Hset i ci') as [lk' Hlk']; [lia|done|by apply Hguard|].
      by eapply Hkeep.
    + destruct (Hlink _ _ Hj) as (? & ? & [?|[lk' Hlk']]).
      * split_and!; [done..|by left].
      * split_and!; [done..|right; by eapply Hkeep].
  - intros j c Hj Hc Hne.
    destruct (decide (i + rp t = j)) as [<-|Hnej].
    + rewrite aget_aset_eq by (rewrite Hlen; lia). by eauto.
    + rewrite aget_aset_ne in Hc by done. rewrite aget_aset_ne by done.
      by eapply Hset.
Qed.

Lemma fold_relax_chained tiers C i ts :
  0 ≤ i → (∀ t, t ∈ tiers → 0 < rp t) →
  (∀ t, t ∈ ts → t ∈ tiers) →
  ∀ st,
    (∀ ci, aget (dp st) i = Some ci → js_eq ci Infinity = false) →
    chained tiers st →
    chained tiers (fold_left (relax C i) ts st).
Proof.
  intros Hi Hrp. induction ts as [|t ts IH]; intros Hts st Hguard Hch;
    simpl; [done|].
  destruct (relax_chained tiers C i st t) as [Hch' Hsame];
    [done|apply Hrp, Hts; left|apply Hts; left|done..|].
  apply IH; [intros t' Ht'; apply Hts; by right| |done].
  intros ci. rewrite Hsame. apply Hguard.
Qed.

Lemma build_table_chained tiers C :
  (∀ t, t ∈ tiers → 0 < rp t) → 0 ≤ C →
  chained tiers (build_table tiers C).
Proof.
  intros Hrp HC. unfold build_table.
  apply (for_loop_ind (λ _, chained tiers)); [done| |].
  - split; simpl.
    + by rewrite length_aset, !length_replicate.
    + intros j lk Hj. by apply aget_replicate in Hj.
    + intros j c Hj Hc Hne. rewrite aget_aset_ne in Hc by lia.
      apply aget_replicate in Hc as ->. done.
  - intros i st Hi Hch. unfold fill_step.
    destruct (aget (dp st) i) as [ci|] eqn:Hci.
    + destruct (js_eq ci Infinity) eqn:Heq; [done|].
      apply fold_relax_chained; [lia|done|done| |done].
      intros ci' Hci'. by simplify_eq.
    + apply fold_relax_chained; [lia|done|done| |done].
      intros ci' Hci'. by simplify_eq.
Qed.

(** Along a chain the walk collects packages of the catalogue whose amounts
    add up to the amount it starts from. *)
Lemma walk_chained tiers st :
  chained tiers st → decreasing (parent st) →
  ∀ fuel curr,
    (Z.to_nat curr < fuel)%nat →
    curr = 0 ∨ (∃ lk, aget (parent st) curr = Some (Some lk)) →
    ∃ pk, walk fuel (parent st) curr = Some pk ∧
          Forall (λ x, x ∈ tiers) pk ∧ sum_rp pk = curr.
Proof.
  intros Hch Hdec. induction fuel as [|fuel IH]; intros curr Hfuel Hcurr;
    [lia|].
  simpl. destruct (Z.ltb_spec 0 curr) as [Hpos|Hneg].
  - destruct Hcurr as [->|[lk Hlk]]; [lia|]. rewrite Hlk.
    destruct (ch_link _ _ Hch _ _ Hlk) as (Ht & Hsum & Hprev).
    pose proof (Hdec _ _ Hlk) as Hlt.
    destruct (IH (prevRP lk)) as (pk & -> & Hpk & Hrp); [lia|done|].
    eexists. split; [done|]. split; [by constructor|]. simpl. lia.
  - destruct Hcurr as [->|[lk Hlk]].
    + by exists [].
    + apply aget_Some in Hlk as Hr. exists []. split; [done|].
      split; [done|]. simpl. lia.
Qed.

(** The loop of the reconstruction stays on the chain. *)
Lemma nsteps_chained tiers st n x y :
  chained tiers st →
  nsteps (walk_step (parent st)) n x y →
  x.1 = 0 ∨ (∃ lk, aget (parent st) x.1 = Some (Some lk)) →
  y.1 = 0 ∨ (∃ lk, aget (parent st) y.1 = Some (Some lk)).
Proof.
  intros Hch. induction 1 as [|n x y z Hstep _ IH]; [done|].
  intros _. apply IH. destruct Hstep as [curr acc lk Hpos Hlk]. simpl.
  by destruct (ch_link _ _ Hch _ _ Hlk) as (_ & _ & ?).
Qed.

(** What the scan selects: nothing, or a cell below [Infinity]. *)
Lemma select_best_cases d targetRP maxPossibleRP :
  targetRP ≤ maxPossibleRP →
  let s := select_best d targetRP maxPossibleRP in
  (s = (Infinity, targetRP) ∧
   ∀ j c, targetRP ≤ j ≤ maxPossibleRP → aget d j = Some c →
          js_lt c Infinity = false) ∨
  (targetRP ≤ s.2 ≤ maxPossibleRP ∧ aget d s.2 = Some s.1 ∧
   js_lt s.1 Infinity = true ∧ js_eq s.1 Infinity = false).
Proof.
  intros Hle s.
  assert ((s = (Infinity, targetRP) ∧
           ∀ j c, targetRP ≤ j < maxPossibleRP + 1 → aget d j = Some c →
                  js_lt c Infinity = false) ∨
          (targetRP ≤ s.2 < maxPossibleRP + 1 ∧ aget d s.2 = Some s.1 ∧
           js_lt s.1 Infinity = true ∧ js_eq s.1 Infinity = false))
    as [[? Hall]|(? & ? & ?)].
  2: { left. split; [done|]. intros j c Hj. apply Hall. lia. }
  2: { right. split; [lia|done]. }
  unfold s, select_best.
  apply (for_loop_ind
           (λ i (s : number * Z),
              (s = (Infinity, targetRP) ∧
               ∀ j c, targetRP ≤ j < i → aget d j = Some c →
                      js_lt c Infinity = false) ∨
              (targetRP ≤ s.2 < i ∧ aget d s.2 = Some s.1 ∧
               js_lt s.1 Infinity = true ∧ js_eq s.1 Infinity = false)));
    [lia| |].
  - left. split; [done|]. intros j c Hj. lia.
  - intros i [m b] Hi Hinv. unfold scan_step. cbn [fst snd] in *.
    destruct (aget d i) as [c|] eqn:Hc.
    + destruct (js_lt c m) eqn:Hlt.
      * right. cbn [fst snd]. split; [lia|]. split; [done|].
        by eapply js_lt_Infinity.
      * destruct Hinv as [[[= -> ->] Hall]|(Hb & Hm & Hne)].
        -- left. split; [done|]. intros j c' Hj Hc'.
           destruct (decide (j = i)) as [->|]; [by simplify_eq|].
           eapply Hall; [|done]. lia.
        -- right. cbn [fst snd]. split; [lia|done].
    + destruct Hinv as [[[= -> ->] Hall]|(Hb & Hm & Hne)].
      * left. split; [done|]. intros j c' Hj Hc'.
        destruct (decide (j = i)) as [->|]; [by simplify_eq|].
        eapply Hall; [|done]. lia.
      * right. cbn [fst snd]. split; [lia|done].
Qed.

(** ** The solver computes what the exact program computes *)

Lemma js_lt_embed c m :
  (∀ p, c = Exact.Fin p → 0 ≤ p < 2 ^ 53) →
  (∀ p, m = Exact.Fin p → 0 ≤ p < 2 ^ 53) →
  js_lt (embed_num c) (embed_num m) = Exact.num_ltb c m.
Proof.
  intros Hc Hm. destruct c as [p|], m as [q|]; simpl.
  - apply js_lt_exact; auto.
  - apply Z2num_finite; auto.
  - apply js_lt_Infinity_l.
  - done.
Qed.

Section simulation.
Variables (tiers : list RPPackage) (C P : Z).
Hypothesis Hprices : ∀ t, t ∈ tiers →
  0 < rp t ∧ price t = Z2num (price_Z t) ∧ 0 < price_Z t ≤ P.
Hypothesis HC : 0 ≤ C.
Hypothesis HP : 0 ≤ P ∧ P * C < 2 ^ 53.

Lemma Hrp_sim : ∀ t, t ∈ tiers → 0 < rp t.
Proof. intros t Ht. by destruct (Hprices t Ht). Qed.

(** A multiset costs at most [P] per unit of amount. *)
Lemma sum_price_bound ms :
  Forall (λ x, x ∈ tiers) ms → 0 ≤ sum_price ms ≤ P * sum_rp ms.
Proof.
  induction 1 as [|t ms Ht _ IH]; simpl; [lia|].
  destruct (Hprices t Ht) as (? & _ & ? & ?). nia.
Qed.

(** So does every finite cell of the exact table. *)
Lemma wf_bound k st j c :
  Exact.table_wf tiers C k st →
  aget (Exact.dp st) j = Some (Exact.Fin c) →
  0 ≤ c ≤ P * j ∧ 0 ≤ j ≤ C.
Proof.
  intros Hwf Hc. split.
  - assert (∀ n : nat, ∀ j c,
              (Z.to_nat j < n)%nat →
              aget (Exact.dp st) j = Some (Exact.Fin c) →
              0 ≤ c ≤ P * j) as Hind;
      [|eapply (Hind (S (Z.to_nat j))); [lia|done]].
    clear j c Hc. induction n as [|n IH]; intros j c Hn Hc; [lia|].
    pose proof (aget_Some _ _ _ Hc) as Hj.
    destruct (decide (j = 0)) as [->|Hne].
    { rewrite (Exact.wf_zero _ _ _ _ Hwf) in Hc. simplify_eq. lia. }
    destruct (Exact.wf_sound _ _ _ _ Hwf j c) as (lk & Hlk & Ht & Hsum & _ & Hprev);
      [lia|done|].
    pose proof (Exact.wf_par _ _ _ _ Hwf _ _ Hlk) as Hdec.
    destruct (Hprices _ Ht) as (? & _ & ? & ?).
    pose proof (IH (prevRP lk) _ ltac:(lia) Hprev). nia.
  - apply aget_Some in Hc. rewrite (Exact.wf_size _ _ _ _ Hwf) in Hc. lia.
Qed.

Lemma relax_sim i st t :
  Exact.table_wf tiers C (i + 1) st →
  0 ≤ i < C → t ∈ tiers →
  relax C i (embed_table st) t = embed_table (Exact.relax C i st t).
Proof.
  intros Hwf Hi Ht. destruct (Hprices t Ht) as (Hrp & Hprice & Hpz).
  unfold relax, Exact.relax, embed_table. cbn [dp parent].
  destruct (i + rp t <=? C); [|done]. rewrite !aget_fmap.
  destruct (aget (Exact.dp st) i) as [ci|] eqn:Hci; [|done].
  destruct (aget (Exact.dp st) (i + rp t)) as [cn|] eqn:Hcn; [|done].
  cbn [fmap option_fmap option_map].
  assert (js_add (embed_num ci) (price t)
            = embed_num (Exact.num_add ci (price_Z t))) as ->.
  { rewrite Hprice. destruct ci as [c|]; simpl.
    - destruct (wf_bound _ _ _ _ Hwf Hci). apply js_add_exact; nia.
    - apply Z2num_finite. nia. }
  rewrite js_lt_embed.
  - destruct (Exact.num_ltb _ cn); [|done].
    cbn [Exact.dp Exact.parent]. by rewrite aset_fmap.
  - intros p Hp. destruct ci as [c|]; [|done]. simpl in Hp. simplify_eq.
    destruct (wf_bound _ _ _ _ Hwf Hci). nia.
  - intros p ->. destruct (wf_bound _ _ _ _ Hwf Hcn). nia.
Qed.

Lemma fold_relax_sim i ts :
  0 ≤ i < C →
  (∀ t, t ∈ ts → t ∈ tiers) →
  ∀ st,
    Exact.table_wf tiers C (i + 1) st →
    fold_left (relax C i) ts (embed_table st)
      = embed_table (fold_left (Exact.relax C i) ts st).
Proof.
  intros Hi. induction ts as [|t ts IH]; intros Hts st Hwf; simpl; [done|].
  assert (t ∈ tiers) as Ht by (apply Hts; left).
  rewrite relax_sim by done. apply IH.
  - intros u Hu. apply Hts. by right.
  - apply ExactFacts.relax_wf; [apply Hrp_sim|lia|done..].
Qed.

Lemma fill_step_sim i st :
  Exact.table_wf tiers C i st →
  0 ≤ i < C →
  fill_step tiers C i (embed_table st)
    = embed_table (Exact.fill_step tiers C i st).
Proof.
  intros Hwf Hi.
  assert (Exact.table_wf tiers C (i + 1) st) as Hwf1
    by (eapply ExactFacts.table_wf_weaken; [|done]; lia).
  unfold fill_step, Exact.fill_step.
  replace (aget (dp (embed_table st)) i)
    with (embed_num <$> aget (Exact.dp st) i) by (symmetry; apply aget_fmap).
  destruct (aget (Exact.dp st) i) as [[c|]|] eqn:Hci; simpl.
  - destruct (wf_bound _ _ _ _ Hwf Hci).
    destruct (Z2num_finite c) as (_ & -> & _); [nia|].
    by apply fold_relax_sim.
  - done.
  - by apply fold_relax_sim.
Qed.

Lemma init_table_sim : init_table C = embed_table (Exact.init_table C).
Proof.
  unfold init_table, Exact.init_table, embed_table. cbn [Exact.dp Exact.parent].
  by rewrite aset_fmap, fmap_replicate.
Qed.

Lemma build_table_sim :
  build_table tiers C = embed_table (Exact.build_table tiers C).
Proof.
  unfold build_table, Exact.build_table.
  apply (for_loop_sim
           (λ i st st', st = embed_table st' ∧
                        Exact.table_wf tiers C i st' ∧
                        Exact.table_opt tiers C i st')); [done| |].
  - split; [apply init_table_sim|].
    by apply ExactFacts.init_table_inv; [apply Hrp_sim|].
  - intros i st st' Hi (-> & Hwf & Hopt).
    split; [by apply fill_step_sim|].
    by apply ExactFacts.fill_step_opt; [apply Hrp_sim|..].
Qed.

Lemma select_best_sim d targetRP :
  (∀ j c, aget d j = Some (Exact.Fin c) → 0 ≤ c < 2 ^ 53) →
  targetRP ≤ C + 1 →
  select_best (embed_num <$> d) targetRP C
    = (embed_num (Exact.select_best d targetRP C).1,
       (Exact.select_best d targetRP C).2).
Proof.
  intros Hd Hle. unfold select_best, Exact.select_best.
  apply (for_loop_sim
           (λ _ (s : number * Z) (s' : Exact.num * Z),
              (s = (embed_num s'.1, s'.2) ∧
               ∀ p, s'.1 = Exact.Fin p → 0 ≤ p < 2 ^ 53))
           (scan_step (embed_num <$> d)) (Exact.scan_step d)); [done|done|].
  intros i s [m b] _ [-> Hm]. unfold scan_step, Exact.scan_step.
  rewrite aget_fmap. cbn [fst snd] in *.
  destruct (aget d i) as [c|] eqn:Hc; [|done]. cbn [fmap option_fmap option_map].
  rewrite js_lt_embed; [|by intros p ->; eapply Hd|done].
  destruct (Exact.num_ltb c m); [|done].
  cbn [fst snd]. split; [done|]. intros p ->. by eapply Hd.
Qed.
End simulation.

Lemma findOptimalPlan_sim fuel targetRP tiers :
  valid_tiers targetRP tiers = true →
  0 < targetRP →
  findOptimalPlan fuel targetRP tiers
    = embed_plan <$> Exact.findOptimalPlan fuel targetRP tiers.
Proof.
  intros [_ Hex]%valid_tiers_spec HT.
  pose proof (exact_prices_spec _ _ Hex) as Hall.
  pose proof (maxRP_nonneg tiers) as Hmax.
  unfold findOptimalPlan, Exact.findOptimalPlan.
  destruct (targetRP <=? 0); [done|]. cbv zeta.
  set (C := targetRP + maxRP tiers) in *.
  set (P := (2 ^ 53 - 1) / C).
  assert (0 ≤ P ∧ P * C < 2 ^ 53) as HP.
  { split; [apply Z.div_pos; lia|].
    pose proof (Z.mul_div_le (2 ^ 53 - 1) C). lia. }
  assert (∀ t, t ∈ tiers →
            0 < rp t ∧ price t = Z2num (price_Z t) ∧ 0 < price_Z t ≤ P)
    as Hprices.
  { intros t Ht. destruct (Hall t Ht) as (? & ? & ? & ?).
    split_and!; [done..|]. apply Z.div_le_lower_bound; lia. }
  rewrite (build_table_sim tiers C P) by (done || lia).
  cbn [dp parent embed_table].
  destruct (ExactFacts.build_table_inv tiers C) as [Hwf _];
    [by intros t Ht; destruct (Hprices t Ht)|lia|].
  rewrite (select_best_sim C); [|lia..| |lia].
  - destruct (Exact.select_best _ _ _) as [m b]. cbn [fst snd].
    by destruct (walk fuel _ b).
  - intros j c Hc.
    destruct (wf_bound tiers C P Hprices HP _ _ _ _ Hwf Hc). nia.
Qed.

(** Everything the solver guarantees on a catalogue of exact prices. *)
Lemma findOptimalPlan_spec tiers targetRP fuel :
  valid_tiers targetRP tiers = true →
  0 < targetRP →
  (Z.to_nat (targetRP + maxRP tiers) < fuel)%nat →
  ∃ pk b p,
    findOptimalPlan fuel targetRP tiers
      = Some {| packages := pk; totalRP := b; totalPrice := Z2num p |} ∧
    0 < p < 2 ^ 53 ∧
    targetRP ≤ b ≤ targetRP + maxRP tiers ∧
    Forall (λ x, x ∈ tiers) pk ∧
    sum_rp pk = b ∧
    sum_price pk = p ∧
    (∀ ms, Forall (λ x, x ∈ tiers) ms → targetRP ≤ sum_rp ms →
           p ≤ sum_price ms ∧ (sum_price ms = p → b ≤ sum_rp ms)) ∧
    (∀ acc,
       nsteps
         (walk_step (parent (build_table tiers (targetRP + maxRP tiers))))
         (length pk) (b, acc) (0, acc ++ pk)).
Proof.
  intros Hv HT Hfuel.
  destruct (ExactFacts.findOptimalPlan_exact_spec tiers targetRP fuel
              (valid_tiers_Exact _ _ Hv) HT Hfuel)
    as (pk & b & p & Hrun & Hb & Hin & Hsum & Hprice & Hmin & Hsteps).
  apply valid_tiers_spec in Hv as Hv'. destruct Hv' as [_ Hex].
  pose proof (exact_prices_spec _ _ Hex) as Hall.
  pose proof (maxRP_nonneg tiers) as Hmax.
  set (C := targetRP + maxRP tiers) in *.
  set (P := (2 ^ 53 - 1) / C).
  assert (0 ≤ P ∧ P * C < 2 ^ 53) as HP.
  { split; [apply Z.div_pos; lia|].
    pose proof (Z.mul_div_le (2 ^ 53 - 1) C). lia. }
  assert (∀ t, t ∈ tiers →
            0 < rp t ∧ price t = Z2num (price_Z t) ∧ 0 < price_Z t ≤ P)
    as Hprices.
  { intros t Ht. destruct (Hall t Ht) as (? & ? & ? & ?).
    split_and!; [done..|]. apply Z.div_le_lower_bound; lia. }
  exists pk, b, p. rewrite findOptimalPlan_sim, Hrun by done.
  split_and!; [done| | |lia|lia|done..| |].
  - destruct pk as [|t pk]; [simpl in Hsum; lia|].
    apply Forall_cons in Hin as Hin'. destruct Hin' as [Ht Hpk].
    pose proof (sum_price_bound tiers C P Hprices HP pk Hpk).
    destruct (Hprices t Ht) as (_ & _ & ? & _). simpl in Hprice. lia.
  - pose proof (sum_price_bound tiers C P Hprices HP pk Hin). nia.
  - done.
  - rewrite (build_table_sim tiers C P) by (done || lia). done.
Qed.

Lemma aget_replicate_in {A} (n : nat) (x : A) i :
  0 ≤ i < Z.of_nat n → aget (replicate n x) i = Some x.
Proof.
  intros Hi. unfold aget. destruct (Z.leb_spec 0 i); [|lia].
  apply lookup_replicate_2. lia.
Qed.

(** ** Properties of the solver *)

(** C1 as stated fails: the package costs [2 ^ 53 - 3]; three of them reach
    the target 3 for 27021597764222967, and the solver returns a
    [totalPrice] of 27021597764222968, the rounded sum. *)
Lemma optimality_fails_on_rounding :
  ∃ r,
    findOptimalPlan 5 3 [odd_tier] = Some r ∧
    Forall (λ x, x ∈ [odd_tier]) [odd_tier; odd_tier; odd_tier] ∧
    3 ≤ sum_rp [odd_tier; odd_tier; odd_tier] ∧
    number_Z (totalPrice r) = 27021597764222968 ∧
    sum_price [odd_tier; odd_tier; odd_tier] < number_Z (totalPrice r).
Proof.
  eexists. split; [by vm_compute|].
  split; [repeat constructor|]. by vm_compute.
Qed.

(** C1, amended.  On a non-empty catalogue of positive integer amounts and
    positive integer prices [p] with [p * (targetRP + maxRP) < 2 ^ 53], and a
    positive target, the solver returns a plan whose [totalPrice] is the
    price of its packages, which come from the catalogue and reach the
    target; and no multiset of packages of the catalogue that reaches the
    target is strictly cheaper. *)
Theorem findOptimalPlan_optimal tiers targetRP fuel :
  valid_tiers targetRP tiers = true →
  0 < targetRP →
  (Z.to_nat (targetRP + maxRP tiers) < fuel)%nat →
  ∃ r p,
    findOptimalPlan fuel targetRP tiers = Some r ∧
    totalPrice r = Z2num p ∧
    number_Z (totalPrice r) = p ∧
    Forall (λ x, x ∈ tiers) (packages r) ∧
    targetRP ≤ sum_rp (packages r) ∧
    sum_price (packages r) = p ∧
    ∀ ms, Forall (λ x, x ∈ tiers) ms → targetRP ≤ sum_rp ms →
          ¬ sum_price ms < p.
Proof.
  intros Hv HT Hfuel.
  destruct (findOptimalPlan_spec tiers targetRP fuel Hv HT Hfuel)
    as (pk & b & p & Hrun & Hp & Hb & Hin & Hsum & Hprice & Hmin & _).
  eexists _, p. split_and!; [done|done| |done| |done|]; simpl.
  - apply number_Z_Z2num. lia.
  - lia.
  - intros ms Hms Hge. destruct (Hmin ms Hms Hge). lia.
Qed.

Lemma findOptimalPlan_optimal_witness :
  ∃ r p,
    findOptimalPlan 13 7 small_tiers = Some r ∧
    totalPrice r = Z2num p ∧
    number_Z (totalPrice r) = p ∧
    Forall (λ x, x ∈ small_tiers) (packages r) ∧
    7 ≤ sum_rp (packages r) ∧
    sum_price (packages r) = p ∧
    ∀ ms, Forall (λ x, x ∈ small_tiers) ms → 7 ≤ sum_rp ms →
          ¬ sum_price ms < p.
Proof.
  apply (findOptimalPlan_optimal small_tiers 7 13);
    [vm_compute; reflexivity | lia | vm_compute; lia].
Defined.




(** C3 as stated fails: on the empty catalogue and target 100 the solver
    raises nothing and returns a plan. *)
Lemma empty_tiers_returns_plan :
  findOptimalPlan 1 100 []
    = Some {| packages := []; totalRP := 100; totalPrice := Infinity |}.
Proof. by vm_compute. Qed.

(** C3, amended.  On the empty catalogue and a positive target the solver
    raises no error: it returns the plan without packages, whose [totalRP] is
    the target and whose [totalPrice] is [Infinity]. *)
Theorem findOptimalPlan_empty targetRP fuel :
  0 < targetRP →
  (0 < fuel)%nat →
  findOptimalPlan fuel targetRP []
    = Some {| packages := []; totalRP := targetRP; totalPrice := Infinity |}.
Proof.
  intros HT Hfuel. unfold findOptimalPlan.
  destruct (Z.leb_spec targetRP 0); [lia|]. cbv zeta.
  change (maxRP []) with 0. rewrite build_table_nil.
  assert (aget (dp (init_table (targetRP + 0))) targetRP = Some Infinity)
    as Hnone.
  { simpl. rewrite aget_aset_ne by lia. apply aget_replicate_in. lia. }
  rewrite select_best_unreachable; [|lia|].
  - destruct fuel as [|fuel]; [lia|].
    rewrite walk_unlinked; [done| |done].
    rewrite <- build_table_nil. apply build_table_linked. lia.
  - intros j Hj. by replace j with targetRP by lia.
Qed.

Lemma findOptimalPlan_empty_witness :
  findOptimalPlan 1 100 []
    = Some {| packages := []; totalRP := 100; totalPrice := Infinity |}.
Proof. apply (findOptimalPlan_empty 100 1); lia. Defined.

(** C4 as stated fails: on the empty catalogue and target 7 no amount of the
    scanned range is reachable, and the solver returns a plan all the same. *)
Lemma unreachable_returns_plan :
  (∀ j c, 7 ≤ j ≤ 7 + maxRP [] →
          aget (dp (build_table [] (7 + maxRP []))) j = Some c →
          js_lt c Infinity = false) ∧
  findOptimalPlan 1 7 []
    = Some {| packages := []; totalRP := 7; totalPrice := Infinity |}.
Proof.
  split; [|by vm_compute].
  intros j c Hj. change (maxRP []) with 0 in Hj.
  replace j with 7 by lia. vm_compute. by intros [= <-].
Qed.

(** C4, amended.  If no amount of the scanned range
    [[targetRP, targetRP + maxRP]] is reachable in the cost table, that is,
    if none of its cells holds a price below [Infinity], the solver raises
    no error: it returns the plan without packages, whose [totalRP] is the
    target and whose [totalPrice] is [Infinity]. *)
Theorem findOptimalPlan_unreachable tiers targetRP fuel :
  0 < targetRP →
  (0 < fuel)%nat →
  (∀ j c, targetRP ≤ j ≤ targetRP + maxRP tiers →
          aget (dp (build_table tiers (targetRP + maxRP tiers))) j = Some c →
          js_lt c Infinity = false) →
  findOptimalPlan fuel targetRP tiers
    = Some {| packages := []; totalRP := targetRP; totalPrice := Infinity |}.
Proof.
  intros HT Hfuel Hnone. pose proof (maxRP_nonneg tiers) as Hmax.
  pose proof (build_table_linked tiers (targetRP + maxRP tiers) ltac:(lia))
    as Hl.
  unfold findOptimalPlan.
  destruct (Z.leb_spec targetRP 0); [lia|]. cbv zeta.
  destruct (select_best_cases
              (dp (build_table tiers (targetRP + maxRP tiers)))
              targetRP (targetRP + maxRP tiers))
    as [[-> _]|(Hb & Hm & Hlt & _)]; [lia| |].
  - destruct fuel as [|fuel]; [lia|].
    assert (walk (S fuel)
              (parent (build_table tiers (targetRP + maxRP tiers))) targetRP
            = Some []) as ->; [|done].
    simpl. destruct (0 <? targetRP); [|done].
    destruct (aget (parent (build_table tiers (targetRP + maxRP tiers)))
                targetRP) as [[lk|]|] eqn:Hlk; [|done..].
    destruct (Hl _ _ Hlk) as (c & Hc & Hlt).
    rewrite (Hnone targetRP c) in Hlt; [done|lia|done].
  - by rewrite (Hnone _ _ Hb Hm) in Hlt.
Qed.

Lemma findOptimalPlan_unreachable_witness :
  findOptimalPlan 1 2 free_tiers
    = Some {| packages := []; totalRP := 2; totalPrice := Infinity |}.
Proof.
  apply (findOptimalPlan_unreachable free_tiers 2 1); [lia | lia |].
  intros j c Hj. change (maxRP free_tiers) with 0 in Hj.
  replace j with 2 by lia. vm_compute. intros H. injection H as <-.
  reflexivity.
Defined.

(** What multisets of [even_tier] and [bulk_tier] amount to and cost. *)
Lemma even_bulk_sums ms :
  Forall (λ x, x ∈ [even_tier; bulk_tier]) ms →
  ∃ a b,
    0 ≤ a ∧ 0 ≤ b ∧
    sum_rp ms = a + 7 * b ∧
    sum_price ms = 9007199254740988 * a + 54043195528445928 * b.
Proof.
  induction 1 as [|x ms Hx _ (a & b & Ha & Hb & Hrp & Hprice)].
  - exists 0, 0. simpl. lia.
  - assert (price_Z even_tier = 9007199254740988) as Hu by (by vm_compute).
    assert (price_Z bulk_tier = 54043195528445928) as Hq by (by vm_compute).
    apply elem_of_cons in Hx as [->|Hx];
      [|apply list_elem_of_singleton in Hx as ->].
    + exists (a + 1), b. cbn [sum_rp sum_price]. rewrite Hu, Hrp, Hprice.
      simpl rp. lia.
    + exists a, (b + 1). cbn [sum_rp sum_price]. rewrite Hq, Hrp, Hprice.
      simpl rp. lia.
Qed.

(** C5 as stated fails: six packages of [2 ^ 53 - 4] reach the amount 6 for
    54043195528445928, and one package of amount 7 has that price.  No
    multiset reaches the target 6 for less, so the amounts 6 and 7 tie at
    the minimum price.  The solver adds the six prices up to
    54043195528445936 and returns the amount 7, not the smaller 6. *)
Lemma tie_break_fails_on_rounding :
  findOptimalPlan 14 6 [even_tier; bulk_tier]
    = Some {| packages := [bulk_tier];
              totalRP := 7;
              totalPrice := Z2num 54043195528445928 |} ∧
  Forall (λ x, x ∈ [even_tier; bulk_tier]) (replicate 6 even_tier) ∧
  sum_rp (replicate 6 even_tier) = 6 ∧
  sum_price (replicate 6 even_tier) = 54043195528445928 ∧
  Forall (λ x, x ∈ [even_tier; bulk_tier]) [bulk_tier] ∧
  sum_rp [bulk_tier] = 7 ∧
  sum_price [bulk_tier] = 54043195528445928 ∧
  (∀ ms, Forall (λ x, x ∈ [even_tier; bulk_tier]) ms → 6 ≤ sum_rp ms →
         54043195528445928 ≤ sum_price ms).
Proof.
  split; [by vm_compute|].
  split; [apply Forall_replicate; left|].
  split; [done|]. split; [by vm_compute|].
  split; [repeat constructor|].
  split; [done|]. split; [by vm_compute|].
  intros ms (a & b & Ha & Hb & -> & ->)%even_bulk_sums Hge. lia.
Qed.

(** C5, amended.  On a non-empty catalogue of positive integer amounts and
    positive integer prices [p] with [p * (targetRP + maxRP) < 2 ^ 53], and a
    positive target: the returned [totalPrice] is the least price at which
    the target can be reached; the returned [totalRP] is an amount of at
    least the target that the returned packages reach at that price; and
    every multiset that reaches the target at that price has an amount of at
    least [totalRP]. *)
Theorem findOptimalPlan_tie_break tiers targetRP fuel :
  valid_tiers targetRP tiers = true →
  0 < targetRP →
  (Z.to_nat (targetRP + maxRP tiers) < fuel)%nat →
  ∃ r p,
    findOptimalPlan fuel targetRP tiers = Some r ∧
    totalPrice r = Z2num p ∧
    (∀ ms, Forall (λ x, x ∈ tiers) ms → targetRP ≤ sum_rp ms →
           p ≤ sum_price ms) ∧
    targetRP ≤ totalRP r ∧
    Forall (λ x, x ∈ tiers) (packages r) ∧
    sum_rp (packages r) = totalRP r ∧
    sum_price (packages r) = p ∧
    ∀ ms, Forall (λ x, x ∈ tiers) ms → targetRP ≤ sum_rp ms →
          sum_price ms = p → totalRP r ≤ sum_rp ms.
Proof.
  intros Hv HT Hfuel.
  destruct (findOptimalPlan_spec tiers targetRP fuel Hv HT Hfuel)
    as (pk & b & p & Hrun & Hp & Hb & Hin & Hsum & Hprice & Hmin & _).
  eexists _, p. split_and!; [done|done| |simpl; lia|done..|].
  - intros ms Hms Hge. by destruct (Hmin ms Hms Hge).
  - intros ms Hms Hge Htie. simpl. by apply (Hmin ms Hms Hge).
Qed.

Lemma findOptimalPlan_tie_break_witness :
  ∃ r p,
    findOptimalPlan 8 3 tied_tiers = Some r ∧
    totalPrice r = Z2num p ∧
    (∀ ms, Forall (λ x, x ∈ tied_tiers) ms → 3 ≤ sum_rp ms →
           p ≤ sum_price ms) ∧
    3 ≤ totalRP r ∧
    Forall (λ x, x ∈ tied_tiers) (packages r) ∧
    sum_rp (packages r) = totalRP r ∧
    sum_price (packages r) = p ∧
    ∀ ms, Forall (λ x, x ∈ tied_tiers) ms → 3 ≤ sum_rp ms →
          sum_price ms = p → totalRP r ≤ sum_rp ms.
Proof.
  apply (findOptimalPlan_tie_break tied_tiers 3 8);
    [vm_compute; reflexivity | lia | vm_compute; lia].
Defined.

(** On [tied_tiers] the amounts 3 and 4 both cost 5, the least price for
    the target 3, and the solver returns the amount 3. *)
Example tied_tiers_plan :
  findOptimalPlan 8 3 tied_tiers
    = Some {| packages := [ {| id := 1; rp := 3; price := Z2num 5 |} ];
              totalRP := 3;
              totalPrice := Z2num 5 |}.
Proof. by vm_compute. Qed.

(** C6 as stated fails: three packages of [2 ^ 53 - 1] are returned for the
    target 3; their prices add up to 27021597764222973, and the [totalPrice]
    returned is 27021597764222972. *)
Lemma consistency_fails_on_rounding :
  ∃ r,
    findOptimalPlan 5 3 [unit_tier] = Some r ∧
    packages r = [unit_tier; unit_tier; unit_tier] ∧
    number_Z (totalPrice r) = 27021597764222972 ∧
    sum_price (packages r) = 27021597764222973.
Proof. eexists. by vm_compute. Qed.

(** C6, amended.  On a non-empty catalogue of positive integer amounts and
    positive integer prices [p] with [p * (targetRP + maxRP) < 2 ^ 53], and a
    positive target, the returned [totalPrice] is the sum of the prices of
    the returned packages, the returned [totalRP] is the sum of their
    amounts, and every returned package is one of the catalogue. *)
Theorem findOptimalPlan_consistent tiers targetRP fuel :
  valid_tiers targetRP tiers = true →
  0 < targetRP →
  (Z.to_nat (targetRP + maxRP tiers) < fuel)%nat →
  ∃ r,
    findOptimalPlan fuel targetRP tiers = Some r ∧
    totalPrice r = Z2num (sum_price (packages r)) ∧
    number_Z (totalPrice r) = sum_price (packages r) ∧
    totalRP r = sum_rp (packages r) ∧
    Forall (λ x, x ∈ tiers) (packages r).
Proof.
  intros Hv HT Hfuel.
  destruct (findOptimalPlan_spec tiers targetRP fuel Hv HT Hfuel)
    as (pk & b & p & Hrun & Hp & _ & Hin & Hsum & Hprice & _).
  eexists. split; [done|]. simpl. subst. split_and!; [done| |done..].
  apply number_Z_Z2num. lia.
Qed.

Lemma findOptimalPlan_consistent_witness :
  ∃ r,
    findOptimalPlan 13 7 small_tiers = Some r ∧
    totalPrice r = Z2num (sum_price (packages r)) ∧
    number_Z (totalPrice r) = sum_price (packages r) ∧
    totalRP r = sum_rp (packages r) ∧
    Forall (λ x, x ∈ small_tiers) (packages r).
Proof.
  apply (findOptimalPlan_consistent small_tiers 7 13);
    [vm_compute; reflexivity | lia | vm_compute; lia].
Defined.

(** C7, non-positive target.  For every catalogue and every target that is
    zero or negative the solver returns the empty plan: no packages,
    [totalRP] 0 and [totalPrice] 0.  Neither the table nor the walk is
    consulted, so the answer does not depend on the fuel. *)
Theorem findOptimalPlan_nonpositive fuel tiers targetRP :
  targetRP ≤ 0 →
  findOptimalPlan fuel targetRP tiers
    = Some {| packages := []; totalRP := 0; totalPrice := Z2num 0 |}.
Proof.
  intros HT. unfold findOptimalPlan.
  by destruct (Z.leb_spec targetRP 0); [|lia].
Qed.

Lemma findOptimalPlan_nonpositive_witness :
  findOptimalPlan 0 0 default_tiers3
    = Some {| packages := []; totalRP := 0; totalPrice := Z2num 0 |} ∧
  findOptimalPlan 0 (-5) []
    = Some {| packages := []; totalRP := 0; totalPrice := Z2num 0 |}.
Proof.
  split.
  - apply (findOptimalPlan_nonpositive 0 default_tiers3 0). lia.
  - apply (findOptimalPlan_nonpositive 0 [] (-5)). lia.
Defined.

(** C8, scenario.  With the packages of amounts 480, 980 and 1425 at prices
    4900, 9900 and 14000 and target 1820, the solver returns one package of
    1425 and one of 480, [totalRP] 1905 and [totalPrice] 18900. *)
Theorem findOptimalPlan_scenario_1820 fuel :
  (3 ≤ fuel)%nat →
  findOptimalPlan fuel 1820 default_tiers3
    = Some {| packages := [tier1425; tier480];
              totalRP := 1905;
              totalPrice := Z2num 18900 |}.
Proof.
  intros Hfuel. apply (findOptimalPlan_fuel_mono 3); [done|].
  by vm_compute.
Qed.

Lemma findOptimalPlan_scenario_1820_witness :
  findOptimalPlan 3 1820 default_tiers3
    = Some {| packages := [tier1425; tier480];
              totalRP := 1905;
              totalPrice := Z2num 18900 |}.
Proof. apply (findOptimalPlan_scenario_1820 3). lia. Defined.

(** C9, termination of the reconstruction.  On a catalogue of positive
    amounts, whatever the prices, every back pointer of the table leads to a
    strictly smaller, non-negative amount; the solver returns, and the loop
    of the reconstruction runs from [(bestRP, [])] to a state
    [(last, packages)] where no iteration is possible, in exactly as many
    iterations as there are packages in the returned plan.  It stops at
    amount 0 whenever the price returned is below [Infinity], which it is on
    a catalogue of exact prices. *)
Theorem reconstruction_terminates tiers targetRP fuel :
  (∀ t, t ∈ tiers → 0 < rp t) →
  0 < targetRP →
  (Z.to_nat (targetRP + maxRP tiers) < fuel)%nat →
  let par := parent (build_table tiers (targetRP + maxRP tiers)) in
  (∀ curr lk, aget par curr = Some (Some lk) → 0 ≤ prevRP lk < curr) ∧
  ∃ r last,
    findOptimalPlan fuel targetRP tiers = Some r ∧
    nsteps (walk_step par) (length (packages r))
      (totalRP r, []) (last, packages r) ∧
    (∀ s, ¬ walk_step par (last, packages r) s) ∧
    (js_lt (totalPrice r) Infinity = true → last = 0) ∧
    (valid_tiers targetRP tiers = true →
     js_lt (totalPrice r) Infinity = true ∧ last = 0).
Proof.
  intros Hrp HT Hfuel par.
  pose proof (maxRP_nonneg tiers) as Hmax.
  pose proof (build_table_decreasing tiers (targetRP + maxRP tiers) Hrp
                ltac:(lia)) as Hdec.
  pose proof (build_table_chained tiers (targetRP + maxRP tiers) Hrp
                ltac:(lia)) as Hch.
  split; [done|].
  pose proof (select_best_cases
                (dp (build_table tiers (targetRP + maxRP tiers)))
                targetRP (targetRP + maxRP tiers) ltac:(lia)) as Hcases.
  pose proof (select_best_range
                (dp (build_table tiers (targetRP + maxRP tiers)))
                targetRP (targetRP + maxRP tiers) ltac:(lia)) as Hrange.
  destruct (select_best (dp (build_table tiers (targetRP + maxRP tiers)))
              targetRP (targetRP + maxRP tiers)) as [m b] eqn:Hsel.
  cbn [fst snd] in *.
  destruct (walk_total _ Hdec fuel b) as [pk Hwalk]; [lia|].
  destruct (walk_nsteps _ _ _ _ [] Hwalk) as (last & Hsteps & Hstuck).
  assert (findOptimalPlan fuel targetRP tiers
            = Some {| packages := pk; totalRP := b; totalPrice := m |})
    as Hrun.
  { unfold findOptimalPlan. destruct (Z.leb_spec targetRP 0); [lia|].
    cbv zeta. by rewrite Hsel, Hwalk. }
  assert (js_lt m Infinity = true → last = 0) as Hlast.
  { intros Hlt.
    destruct Hcases as [[[= -> ->] _]|(_ & Hm & _ & Hne)]; [done|].
    destruct (ch_set _ _ Hch b m) as [lk Hlk]; [lia|done..|].
    destruct (nsteps_chained tiers _ _ _ _ Hch Hsteps) as [?|[lk' Hlk']];
      [right; by eauto|done|].
    cbn [fst] in Hlk'. pose proof (Hdec _ _ Hlk') as Hpos.
    destruct (Hstuck (prevRP lk', ([] ++ pk) ++ [tier lk'])).
    constructor; [lia|done]. }
  exists {| packages := pk; totalRP := b; totalPrice := m |}, last.
  split_and!; [done..|].
  intros Hv.
  destruct (findOptimalPlan_spec tiers targetRP fuel Hv HT Hfuel)
    as (pk' & b' & p & Hrun' & Hp & _).
  rewrite Hrun in Hrun'. simplify_eq. cbn [totalPrice] in *.
  assert (js_lt (Z2num p) Infinity = true) as Hlt
    by (apply Z2num_finite; lia).
  split; [done|]. by apply Hlast.
Qed.

Lemma reconstruction_terminates_witness :
  let par := parent (build_table small_tiers (7 + maxRP small_tiers)) in
  (∀ curr lk, aget par curr = Some (Some lk) → 0 ≤ prevRP lk < curr) ∧
  ∃ r last,
    findOptimalPlan 13 7 small_tiers = Some r ∧
    nsteps (walk_step par) (length (packages r))
      (totalRP r, []) (last, packages r) ∧
    (∀ s, ¬ walk_step par (last, packages r) s) ∧
    (js_lt (totalPrice r) Infinity = true → last = 0) ∧
    (valid_tiers 7 small_tiers = true →
     js_lt (totalPrice r) Infinity = true ∧ last = 0).
Proof.
  apply (reconstruction_terminates small_tiers 7 13);
    [|lia | vm_compute; lia].
  intros t Ht. unfold small_tiers in Ht.
  repeat (apply elem_of_cons in Ht as [->|Ht]; [simpl; lia|]).
  by apply elem_of_nil in Ht.
Defined.

(** C10, overshoot bound.  For every catalogue and every positive target, a
    plan returned by the solver has a [totalRP] of at most the target plus
    [maxRP], which bounds every amount of the catalogue and is one of them
    (or the 0 the reduction starts from); and the solver does return
    whenever every amount of the catalogue is positive. *)
Theorem findOptimalPlan_overshoot tiers targetRP :
  0 < targetRP →
  (∀ t, t ∈ tiers → rp t ≤ maxRP tiers) ∧
  (maxRP tiers = 0 ∨ ∃ t, t ∈ tiers ∧ rp t = maxRP tiers) ∧
  (∀ fuel r, findOptimalPlan fuel targetRP tiers = Some r →
             totalRP r ≤ targetRP + maxRP tiers) ∧
  ((∀ t, t ∈ tiers → 0 < rp t) →
   ∀ fuel, (Z.to_nat (targetRP + maxRP tiers) < fuel)%nat →
           ∃ r, findOptimalPlan fuel targetRP tiers = Some r ∧
                totalRP r ≤ targetRP + maxRP tiers).
Proof.
  intros HT. pose proof (maxRP_nonneg tiers) as Hmax.
  assert (∀ fuel r, findOptimalPlan fuel targetRP tiers = Some r →
                    totalRP r ≤ targetRP + maxRP tiers) as Hbound.
  { intros fuel r. unfold findOptimalPlan.
    destruct (Z.leb_spec targetRP 0); [lia|]. cbv zeta.
    pose proof (select_best_range
                  (dp (build_table tiers (targetRP + maxRP tiers)))
                  targetRP (targetRP + maxRP tiers)) as Hrange.
    destruct (select_best _ _ _) as [m b]. simpl in Hrange.
    destruct (walk fuel _ b); [|done]. intros [= <-]. simpl. lia. }
  split_and!; [apply maxRP_ge|apply maxRP_attained|done|].
  intros Hrp fuel Hfuel.
  assert (is_Some (findOptimalPlan fuel targetRP tiers)) as [r Hr];
    [|by eauto].
  unfold findOptimalPlan.
  destruct (Z.leb_spec targetRP 0); [lia|]. cbv zeta.
  pose proof (build_table_decreasing tiers (targetRP + maxRP tiers) Hrp
                ltac:(lia)) as Hdec.
  pose proof (select_best_range
                (dp (build_table tiers (targetRP + maxRP tiers)))
                targetRP (targetRP + maxRP tiers)) as Hrange.
  destruct (select_best _ _ _) as [m b]. simpl in Hrange.
  destruct (walk_total _ Hdec fuel b) as [pk ->]; [lia|].
  done.
Qed.

Lemma findOptimalPlan_overshoot_witness :
  ∃ r, findOptimalPlan 13 7 small_tiers = Some r ∧
       totalRP r ≤ 7 + maxRP small_tiers.
Proof.
  destruct (findOptimalPlan_overshoot small_tiers 7) as (_ & _ & _ & Hret);
    [lia|].
  apply Hret.
  - intros t Ht. unfold small_tiers in Ht.
    repeat (apply elem_of_cons in Ht as [->|Ht]; [simpl; lia|]).
    by apply elem_of_nil in Ht.
  - vm_compute. lia.
Defined.

(** ** Further properties of the solver *)

(** A bound on the prices of a catalogue of exact prices. *)
Lemma exact_prices_bound C tiers :
  0 < C →
  exact_prices C tiers = true →
  ∃ P, (0 ≤ P ∧ P * C < 2 ^ 53) ∧
       ∀ t, t ∈ tiers →
            0 < rp t ∧ price t = Z2num (price_Z t) ∧ 0 < price_Z t ≤ P.
Proof.
  intros HC Hex. pose proof (exact_prices_spec _ _ Hex) as Hall.
  exists ((2 ^ 53 - 1) / C). split.
  - split; [apply Z.div_pos; lia|].
    pose proof (Z.mul_div_le (2 ^ 53 - 1) C). lia.
  - intros t Ht. destruct (Hall t Ht) as (? & ? & ? & ?).
    split_and!; [done..|]. apply Z.div_le_lower_bound; lia.
Qed.

(** The cost table is exact.  On a catalogue of positive integer amounts and
    positive integer prices [p] with [p * C < 2 ^ 53], every cell [j] of the
    finished table holds the least price of a multiset of amount exactly
    [j], and [Infinity] precisely when no multiset has that amount. *)
Theorem build_table_exact tiers C j :
  exact_prices C tiers = true →
  0 < C →
  0 ≤ j ≤ C →
  match aget (dp (build_table tiers C)) j with
  | Some c =>
      (c = Infinity ∧ ∀ ms, Forall (λ x, x ∈ tiers) ms → sum_rp ms ≠ j) ∨
      (∃ p,
         c = Z2num p ∧ 0 ≤ p < 2 ^ 53 ∧
         (∃ ms, Forall (λ x, x ∈ tiers) ms ∧
                sum_rp ms = j ∧ sum_price ms = p) ∧
         (∀ ms, Forall (λ x, x ∈ tiers) ms → sum_rp ms = j →
                p ≤ sum_price ms))
  | None => False
  end.
Proof.
  intros Hex HC Hj.
  destruct (exact_prices_bound _ _ HC Hex) as (P & HP & Hprices).
  assert (∀ t, t ∈ tiers → 0 < rp t) as Hrp
    by (intros t Ht; by destruct (Hprices t Ht)).
  rewrite (build_table_sim tiers C P) by (done || lia).
  cbn [dp embed_table]. rewrite aget_fmap.
  destruct (ExactFacts.build_table_inv tiers C Hrp) as [Hwf Hopt]; [lia|].
  destruct (aget_is_Some (Exact.dp (Exact.build_table tiers C)) j)
    as [c Hc].
  { rewrite (Exact.wf_size _ _ _ _ Hwf). lia. }
  rewrite Hc. destruct c as [p|]; simpl.
  - right. exists p. split; [done|]. split_and!.
    + destruct (wf_bound tiers C P Hprices HP _ _ _ _ Hwf Hc). lia.
    + destruct (wf_bound tiers C P Hprices HP _ _ _ _ Hwf Hc). nia.
    + destruct (ExactFacts.walk_reach tiers C C _ Hwf (S (Z.to_nat j)) j p)
        as (ms & _ & Hin & Hsum & Hprice & _); [lia|lia|done|].
      by exists ms.
    + intros ms Hms Hsum.
      destruct (ExactFacts.table_opt_reach tiers C Hrp C _ ms Hwf Hopt Hms)
        as (q & Hq & Hle); [lia..|].
      rewrite Hsum, Hc in Hq. by simplify_eq.
  - left. split; [done|]. intros ms Hms Hsum.
    destruct (ExactFacts.table_opt_reach tiers C Hrp C _ ms Hwf Hopt Hms)
      as (q & Hq & Hle); [lia..|].
    rewrite Hsum, Hc in Hq. done.
Qed.

Lemma build_table_exact_witness :
  match aget (dp (build_table small_tiers 12)) 8 with
  | Some c =>
      (c = Infinity ∧
       ∀ ms, Forall (λ x, x ∈ small_tiers) ms → sum_rp ms ≠ 8) ∨
      (∃ p,
         c = Z2num p ∧ 0 ≤ p < 2 ^ 53 ∧
         (∃ ms, Forall (λ x, x ∈ small_tiers) ms ∧
                sum_rp ms = 8 ∧ sum_price ms = p) ∧
         (∀ ms, Forall (λ x, x ∈ small_tiers) ms → sum_rp ms = 8 →
                p ≤ sum_price ms))
  | None => False
  end.
Proof.
  apply (build_table_exact small_tiers 12 8);
    [vm_compute; reflexivity | lia | lia].
Defined.

(** No package of the plan is superfluous.  On a catalogue of exact prices
    the plan is not empty, and taking any one package out of it leaves less
    than the target; hence the overshoot is smaller than the amount of every
    package bought, and strictly smaller than the largest amount of the
    catalogue. *)
Theorem findOptimalPlan_tight tiers targetRP fuel :
  valid_tiers targetRP tiers = true →
  0 < targetRP →
  (Z.to_nat (targetRP + maxRP tiers) < fuel)%nat →
  ∃ r,
    findOptimalPlan fuel targetRP tiers = Some r ∧
    packages r ≠ [] ∧
    (∀ t, t ∈ packages r → totalRP r - rp t < targetRP) ∧
    totalRP r < targetRP + maxRP tiers.
Proof.
  intros Hv HT Hfuel.
  destruct (findOptimalPlan_spec tiers targetRP fuel Hv HT Hfuel)
    as (pk & b & p & Hrun & _ & Hb & Hin & Hsum & Hprice & Hmin & _).
  destruct (valid_tiers_spec _ _ Hv) as [_ Hex].
  pose proof (exact_prices_spec _ _ Hex) as Hpos.
  assert (∀ t, t ∈ pk → b - rp t < targetRP) as Htight.
  { intros t (l1 & l2 & ->)%list_elem_of_split.
    rewrite sum_rp_app in Hsum. rewrite sum_price_app in Hprice.
    simpl in Hsum, Hprice.
    apply Forall_app in Hin as [Hin1 Hin2].
    apply Forall_cons in Hin2 as [Ht Hin2].
    destruct (decide (targetRP ≤ sum_rp (l1 ++ l2))) as [Hge|]; [|
      rewrite sum_rp_app in *; lia].
    destruct (Hmin (l1 ++ l2)) as [Hle _];
      [by apply Forall_app|done|].
    rewrite sum_price_app in Hle.
    destruct (Hpos t Ht) as (_ & _ & ? & _). lia. }
  eexists. split; [done|]. simpl. split_and!; [|done|].
  - intros ->. simpl in Hsum. lia.
  - destruct pk as [|t pk]; [simpl in Hsum; lia|].
    pose proof (Htight t ltac:(left)) as Ht.
    apply Forall_cons in Hin as [Hin _].
    pose proof (maxRP_ge _ _ Hin). lia.
Qed.

Lemma findOptimalPlan_tight_witness :
  ∃ r,
    findOptimalPlan 13 7 small_tiers = Some r ∧
    packages r ≠ [] ∧
    (∀ t, t ∈ packages r → totalRP r - rp t < 7) ∧
    totalRP r < 7 + maxRP small_tiers.
Proof.
  apply (findOptimalPlan_tight small_tiers 7 13);
    [vm_compute; reflexivity | lia | vm_compute; lia].
Defined.

(** A larger target never costs less, on a catalogue whose prices are exact
    up to the larger target. *)
Theorem findOptimalPlan_target_mono tiers targetRP targetRP' fuel :
  valid_tiers targetRP' tiers = true →
  0 < targetRP ≤ targetRP' →
  (Z.to_nat (targetRP' + maxRP tiers) < fuel)%nat →
  ∃ r r' p p',
    findOptimalPlan fuel targetRP tiers = Some r ∧
    findOptimalPlan fuel targetRP' tiers = Some r' ∧
    totalPrice r = Z2num p ∧ totalPrice r' = Z2num p' ∧
    0 < p ≤ p' ∧ p' < 2 ^ 53 ∧
    js_lt (totalPrice r') (totalPrice r) = false.
Proof.
  intros Hv' HT Hfuel. pose proof (maxRP_nonneg tiers) as Hmax.
  assert (valid_tiers targetRP tiers = true) as Hv.
  { destruct (valid_tiers_spec _ _ Hv') as [Hne Hex].
    apply valid_tiers_intro; [done|].
    apply (exact_prices_mono (targetRP' + maxRP tiers)); [lia|done]. }
  destruct (findOptimalPlan_spec tiers targetRP fuel Hv)
    as (pk & b & p & Hrun & Hp & _ & _ & _ & _ & Hmin & _); [lia..|].
  destruct (findOptimalPlan_spec tiers targetRP' fuel Hv')
    as (pk' & b' & p' & Hrun' & Hp' & Hb' & Hin' & Hsum' & Hprice' & _);
    [lia..|].
  destruct (Hmin pk' Hin') as [Hle _]; [lia|].
  eexists _, _, p, p'. split_and!; [done..|lia|lia|lia|]. simpl.
  rewrite js_lt_exact by lia. apply Z.ltb_ge. lia.
Qed.

Lemma findOptimalPlan_target_mono_witness :
  ∃ r r' p p',
    findOptimalPlan 15 7 small_tiers = Some r ∧
    findOptimalPlan 15 9 small_tiers = Some r' ∧
    totalPrice r = Z2num p ∧ totalPrice r' = Z2num p' ∧
    0 < p ≤ p' ∧ p' < 2 ^ 53 ∧
    js_lt (totalPrice r') (totalPrice r) = false.
Proof.
  apply (findOptimalPlan_target_mono small_tiers 7 9 15);
    [vm_compute; reflexivity | lia | vm_compute; lia].
Defined.

(** The order of the catalogue does not matter to the totals: two catalogues
    of exact prices with the same packages give the same [totalPrice] and the
    same [totalRP]. *)
Theorem findOptimalPlan_order_irrelevant tiers tiers' targetRP fuel :
  valid_tiers targetRP tiers = true →
  tiers ≡ₚ tiers' →
  0 < targetRP →
  (Z.to_nat (targetRP + maxRP tiers) < fuel)%nat →
  ∃ r r',
    findOptimalPlan fuel targetRP tiers = Some r ∧
    findOptimalPlan fuel targetRP tiers' = Some r' ∧
    totalPrice r' = totalPrice r ∧
    totalRP r' = totalRP r.
Proof.
  intros Hv Hperm HT Hfuel.
  destruct (valid_tiers_spec _ _ Hv) as [Hne Hex].
  pose proof (exact_prices_spec _ _ Hex) as Hpos.
  assert (∀ x, x ∈ tiers' ↔ x ∈ tiers) as Hmem
    by (intros x; by rewrite Hperm).
  assert (maxRP tiers' = maxRP tiers) as Hmax.
  { apply Z.le_antisymm.
    - destruct (maxRP_attained tiers') as [->|(t & Ht & <-)];
        [apply maxRP_nonneg|]. apply maxRP_ge. by apply Hmem.
    - destruct (maxRP_attained tiers) as [->|(t & Ht & <-)];
        [apply maxRP_nonneg|]. apply maxRP_ge. by apply Hmem. }
  pose proof (maxRP_nonneg tiers) as Hmax0.
  assert (valid_tiers targetRP tiers' = true) as Hv'.
  { apply valid_tiers_intro.
    - intros ->. by apply Permutation_nil_r in Hperm.
    - rewrite Hmax. apply exact_prices_intro; [lia|].
      intros t Ht%Hmem. destruct (Hpos t Ht) as (? & ? & ? & ?).
      split; [done|]. by exists (price_Z t). }
  destruct (findOptimalPlan_spec tiers targetRP fuel Hv HT Hfuel)
    as (pk & b & p & Hrun & Hp & Hb & Hin & Hsum & Hprice & Hmin & _).
  destruct (findOptimalPlan_spec tiers' targetRP fuel Hv' HT)
    as (pk' & b' & p' & Hrun' & Hp' & Hb' & Hin' & Hsum' & Hprice' & Hmin'
        & _);
    [by rewrite Hmax|].
  assert (Forall (λ x, x ∈ tiers) pk') as Hin'1
    by (eapply Forall_impl; [done|]; intros x; apply Hmem).
  assert (Forall (λ x, x ∈ tiers') pk) as Hin1
    by (eapply Forall_impl; [done|]; intros x; apply Hmem).
  destruct (Hmin pk' Hin'1) as [Hle Htie]; [lia|].
  destruct (Hmin' pk Hin1) as [Hle' Htie']; [lia|].
  eexists _, _. split_and!; [done|done|simpl..].
  - f_equal. lia.
  - assert (p = p') by lia. lia.
Qed.

Lemma findOptimalPlan_order_irrelevant_witness :
  ∃ r r',
    findOptimalPlan 13 7 small_tiers = Some r ∧
    findOptimalPlan 13 7 (reverse small_tiers) = Some r' ∧
    totalPrice r' = totalPrice r ∧
    totalRP r' = totalRP r.
Proof.
  apply (findOptimalPlan_order_irrelevant small_tiers (reverse small_tiers)
           7 13);
    [vm_compute; reflexivity | apply Permutation_swap | lia
    | vm_compute; lia].
Defined.

(** A catalogue of one package of integer price [v], with
    [v * (targetRP + rp) < 2 ^ 53]: the plan is the least number of copies
    that reaches the target, [ceil (targetRP / rp)]. *)
Theorem findOptimalPlan_single t v targetRP fuel :
  0 < rp t →
  price t = Z2num v → 0 < v → v * (targetRP + rp t) < 2 ^ 53 →
  0 < targetRP →
  (Z.to_nat (targetRP + rp t) < fuel)%nat →
  let n := (targetRP + rp t - 1) / rp t in
  findOptimalPlan fuel targetRP [t]
    = Some {| packages := replicate (Z.to_nat n) t;
              totalRP := n * rp t;
              totalPrice := Z2num (n * v) |}.
Proof.
  intros Hrp Hprice Hv Hbound HT Hfuel n.
  assert (maxRP [t] = rp t) as Hmax by (unfold maxRP; simpl; lia).
  assert (price_Z t = v) as Hpz.
  { unfold price_Z. rewrite Hprice. apply number_Z_Z2num. nia. }
  assert (valid_tiers targetRP [t] = true) as Hvalid.
  { apply valid_tiers_intro; [done|]. rewrite Hmax.
    apply exact_prices_intro; [lia|].
    intros x ->%list_elem_of_singleton. split; [done|]. by exists v. }
  destruct (findOptimalPlan_spec [t] targetRP fuel Hvalid HT)
    as (pk & b & p & Hrun & Hp & Hb & Hin & Hsum & Hpk & Hmin & _);
    [by rewrite Hmax|].
  assert (pk = replicate (length pk) t) as Hrep.
  { clear -Hin. induction Hin as [|x pk Hx _ IH]; simpl; [done|].
    apply list_elem_of_singleton in Hx as ->. by rewrite <- IH. }
  rewrite Hrep, sum_rp_replicate in Hsum.
  rewrite Hrep, sum_price_replicate, Hpz in Hpk.
  (* the number of copies is the ceiling *)
  assert (rp t * n ≤ targetRP + rp t - 1 < rp t * (n + 1)) as Hn.
  { unfold n. split.
    - apply Z.mul_div_le. lia.
    - replace (rp t * ((targetRP + rp t - 1) / rp t + 1))
        with (rp t * Z.succ ((targetRP + rp t - 1) / rp t)) by lia.
      apply Z.mul_succ_div_gt. lia. }
  assert (0 ≤ n) as Hn0 by (apply Z.div_pos; lia).
  destruct (Hmin (replicate (Z.to_nat n) t)) as [Hle _].
  { apply Forall_replicate. left. }
  { rewrite sum_rp_replicate. nia. }
  rewrite sum_price_replicate, Hpz in Hle.
  assert (Z.of_nat (length pk) = n) as Hlen by nia.
  rewrite Hrun, Hrep. do 2 f_equal.
  - by rewrite <- Hlen, Nat2Z.id.
  - lia.
  - f_equal. lia.
Qed.

Lemma findOptimalPlan_single_witness :
  let n := (250 + 100 - 1) / 100 in
  findOptimalPlan 351 250 [ {| id := 1; rp := 100; price := Z2num 10 |} ]
    = Some {| packages :=
                replicate (Z.to_nat n)
                  {| id := 1; rp := 100; price := Z2num 10 |};
              totalRP := n * 100;
              totalPrice := Z2num (n * 10) |}.
Proof.
  apply (findOptimalPlan_single
           {| id := 1; rp := 100; price := Z2num 10 |} 10 250 351);
    [simpl; lia | reflexivity | lia | simpl; lia | lia | vm_compute; lia].
Defined.

(** Whatever the prices.  On a catalogue of positive amounts and for a
    positive target the solver returns one of two things: a plan of price
    [Infinity] without packages, when no cell of the scanned range is below
    [Infinity]; or a plan of a price below [Infinity] whose packages come
    from the catalogue and add up to its [totalRP], which reaches the
    target. *)
Theorem findOptimalPlan_sound tiers targetRP fuel :
  (∀ t, t ∈ tiers → 0 < rp t) →
  0 < targetRP →
  (Z.to_nat (targetRP + maxRP tiers) < fuel)%nat →
  ∃ r,
    findOptimalPlan fuel targetRP tiers = Some r ∧
    ((totalPrice r = Infinity ∧ totalRP r = targetRP ∧ packages r = [] ∧
      ∀ j c, targetRP ≤ j ≤ targetRP + maxRP tiers →
             aget (dp (build_table tiers (targetRP + maxRP tiers))) j
               = Some c →
             js_lt c Infinity = false) ∨
     (js_lt (totalPrice r) Infinity = true ∧
      targetRP ≤ totalRP r ≤ targetRP + maxRP tiers ∧
      Forall (λ x, x ∈ tiers) (packages r) ∧
      sum_rp (packages r) = totalRP r)).
Proof.
  intros Hrp HT Hfuel. pose proof (maxRP_nonneg tiers) as Hmax.
  set (C := targetRP + maxRP tiers) in *.
  pose proof (build_table_chained tiers C Hrp ltac:(lia)) as Hch.
  pose proof (build_table_decreasing tiers C Hrp ltac:(lia)) as Hdec.
  pose proof (build_table_linked tiers C ltac:(lia)) as Hl.
  unfold findOptimalPlan. destruct (Z.leb_spec targetRP 0); [lia|].
  cbv zeta. fold C.
  destruct (select_best_cases (dp (build_table tiers C)) targetRP C)
    as [[-> Hall]|(Hb & Hm & Hlt & Hne)]; [lia| |].
  - destruct fuel as [|fuel]; [lia|].
    assert (walk (S fuel) (parent (build_table tiers C)) targetRP = Some [])
      as ->.
    { simpl. destruct (0 <? targetRP); [|done].
      destruct (aget (parent (build_table tiers C)) targetRP)
        as [[lk|]|] eqn:Hlk; [|done..].
      destruct (Hl _ _ Hlk) as (c & Hc & Hlt).
      rewrite (Hall targetRP c) in Hlt; [done|lia|done]. }
    eexists. split; [done|]. left. by simpl.
  - destruct (select_best _ _ _) as [m b]. cbn [fst snd] in *.
    destruct (ch_set _ _ Hch b m) as [lk Hlk]; [lia|done..|].
    destruct (walk_chained tiers _ Hch Hdec fuel b) as (pk & -> & Hpk & Hsum);
      [lia|by eauto|].
    eexists. split; [done|]. right. simpl. split_and!; [done|lia|lia|done..].
Qed.

Lemma findOptimalPlan_sound_witness :
  ∃ r,
    findOptimalPlan 4 2 [huge_tier] = Some r ∧
    ((totalPrice r = Infinity ∧ totalRP r = 2 ∧ packages r = [] ∧
      ∀ j c, 2 ≤ j ≤ 2 + maxRP [huge_tier] →
             aget (dp (build_table [huge_tier] (2 + maxRP [huge_tier]))) j
               = Some c →
             js_lt c Infinity = false) ∨
     (js_lt (totalPrice r) Infinity = true ∧
      2 ≤ totalRP r ≤ 2 + maxRP [huge_tier] ∧
      Forall (λ x, x ∈ [huge_tier]) (packages r) ∧
      sum_rp (packages r) = totalRP r)).
Proof.
  apply (findOptimalPlan_sound [huge_tier] 2 4); [|lia|vm_compute; lia].
  intros t ->%list_elem_of_singleton. simpl. lia.
Defined.

(** ** The catalogue of the application *)

Lemma App_tiers_ids s : map id (App_tiers s) = [1; 2; 3; 4; 5; 6].
Proof. reflexivity. Qed.

Lemma App_tiers_rp s :
  map rp (App_tiers s) = [480; 980; 1425; 3700; 7200; 11800].
Proof. reflexivity. Qed.


(** The packages of [tiers] have the default amounts, and for price a custom
    price or a default one. *)
Lemma App_tiers_prices (Q : Z → Prop) s :
  map_Forall (λ _ v, Q v) (customPrices s) →
  Forall Q [4900; 9900; 14000; 35000; 65000; 99900] →
  ∀ t, t ∈ App_tiers s → 0 < rp t ∧ ∃ v, price t = Z2num v ∧ Q v.
Proof.
  intros Hpos Hdef t Ht. unfold App_tiers, DEFAULT_RP_TIERS in Ht.
  cbn [map] in Ht.
  repeat (apply Forall_cons in Hdef as [? Hdef]).
  repeat (apply elem_of_cons in Ht as [->|Ht];
          [split; [simpl; lia|]; cbn [price id];
           match goal with
           | |- context [?m !! ?k] =>
               destruct (m !! k) as [v|] eqn:Hk;
               [exists v; split;
                  [done|apply (map_Forall_lookup_1 _ _ _ _ Hpos Hk)]
               |eexists; split; [reflexivity|done]]
           end|]).
  by apply elem_of_nil in Ht.
Qed.

Lemma handle_prices (Q : Z → Prop) parseInt st a :
  (∀ o v, parseInt o = Some v → 0 < v → Q v) →
  map_Forall (λ _ v, Q v) (customPrices (settings st)) →
  map_Forall (λ _ v, Q v) (customPrices (settings (handle parseInt st a))).
Proof.
  intros Hparse Hpos.
  destruct a as [tierId|tierId value|tierId|]; simpl; [done..| |].
  - destruct (parseInt (localPrices st !! tierId)) as [v|] eqn:Hv; [|done].
    destruct (Z.ltb_spec 0 v); [|done].
    apply map_Forall_insert_2; [|done]. by eapply Hparse.
  - apply map_Forall_empty.
Qed.

Lemma run_prices (Q : Z → Prop) parseInt actions :
  (∀ o v, parseInt o = Some v → 0 < v → Q v) →
  ∀ st,
    map_Forall (λ _ v, Q v) (customPrices (settings st)) →
    map_Forall (λ _ v, Q v)
      (customPrices (settings (run parseInt actions st))).
Proof.
  intros Hparse. unfold run.
  induction actions as [|a actions IH]; intros st Hpos; simpl; [done|].
  apply IH. by apply handle_prices.
Qed.

(** ** Properties of the application *)

(** No sequence of settings events spoils the catalogue: from a state whose
    stored custom prices are positive, [tiers] always is the six packages
    with their default ids and amounts, the amounts positive, and each price
    a positive number, that of a positive integer. *)
Theorem run_valid_tiers parseInt actions st :
  positive_prices (settings st) →
  let tiers := App_tiers (settings (run parseInt actions st)) in
  tiers ≠ [] ∧
  (∀ t, t ∈ tiers →
        0 < rp t ∧ js_lt (Z2num 0) (price t) = true ∧
        ∃ v, price t = Z2num v ∧ 0 < v) ∧
  map id tiers = [1; 2; 3; 4; 5; 6] ∧
  map rp tiers = [480; 980; 1425; 3700; 7200; 11800].
Proof.
  intros Hpos tiers. split_and!; [done| |done..].
  intros t Ht.
  destruct (App_tiers_prices (λ v, 0 < v) _
              (run_prices (λ v, 0 < v) parseInt actions
                 ltac:(done) st Hpos)
              ltac:(repeat constructor) t Ht) as (Hrp & v & Hprice & Hv).
  split_and!; [done| |by exists v].
  rewrite Hprice. by apply Z2num_positive.
Qed.

Lemma run_valid_tiers_witness :
  let tiers :=
    App_tiers
      (settings
         (run (λ _, Some 5000)
            [PriceChange 1 "5000"; PriceBlur 1; BaseTierChange 3]
            {| settings := initial_settings; localPrices := ∅ |})) in
  tiers ≠ [] ∧
  (∀ t, t ∈ tiers →
        0 < rp t ∧ js_lt (Z2num 0) (price t) = true ∧
        ∃ v, price t = Z2num v ∧ 0 < v) ∧
  map id tiers = [1; 2; 3; 4; 5; 6] ∧
  map rp tiers = [480; 980; 1425; 3700; 7200; 11800].
Proof.
  apply (run_valid_tiers (λ _, Some 5000)
           [PriceChange 1 "5000"; PriceBlur 1; BaseTierChange 3]
           {| settings := initial_settings; localPrices := ∅ |}).
  simpl. apply map_Forall_empty.
Defined.

(** Leaving a price field.  The field is emptied and the base package kept.
    If the text parses to a positive number, exactly the package of that id
    takes this price in [tiers]; otherwise (not a number, or not positive)
    the settings stay as they were. *)
Theorem handlePriceBlur_tiers parseInt tierId st :
  let st' := handlePriceBlur parseInt tierId st in
  baseTierId (settings st') = baseTierId (settings st) ∧
  localPrices st' !! tierId = Some EmptyString ∧
  match parseInt (localPrices st !! tierId) with
  | Some v =>
      if 0 <? v then
        App_tiers (settings st')
          = map (λ t, if id t =? tierId
                      then {| id := id t; rp := rp t; price := Z2num v |}
                      else t)
                (App_tiers (settings st))
      else settings st' = settings st
  | None => settings st' = settings st
  end.
Proof.
  unfold handlePriceBlur. cbn [settings localPrices]. split_and!.
  - destruct (parseInt _) as [v|]; [|done]. by destruct (0 <? v).
  - apply lookup_insert_eq.
  - destruct (parseInt _) as [v|]; [|done].
    destruct (0 <? v); [|done].
    unfold App_tiers. rewrite map_map. apply map_ext. intros t.
    cbn [id rp price customPrices].
    destruct (Z.eqb_spec (id t) tierId) as [->|Hne].
    + by rewrite lookup_insert_eq.
    + rewrite lookup_insert_ne by done. by destruct t.
Qed.

(** The base package always exists and comes from [tiers]: it is the package
    whose id is [baseTierId] when that is one of 1..6, and the last package
    (id 6) otherwise.  Its amount is positive, so the rate
    [baseTier.price / baseTier.rp] never divides by zero. *)
Theorem App_baseTier_spec s :
  ∃ t,
    App_baseTier (App_tiers s) s = Some t ∧
    t ∈ App_tiers s ∧
    0 < rp t ∧
    (1 ≤ baseTierId s ≤ 6 → id t = baseTierId s) ∧
    (¬ 1 ≤ baseTierId s ≤ 6 → id t = 6).
Proof.
  unfold App_baseTier, App_tiers, DEFAULT_RP_TIERS.
  cbn [map find id rp tier480 tier980 tier1425 tier3700 tier7200 tier11800
       last].
  repeat
    (match goal with
     | |- context [?a =? baseTierId s] =>
         destruct (Z.eqb_spec a (baseTierId s));
         [eexists; split_and!;
            [done|repeat (first [by left|right])|cbn [rp id]; lia..]|]
     end).
  eexists. split_and!;
    [done|repeat (first [by left|right])|cbn [rp id]; lia..].
Qed.

(** What [PlanScreen] shows is never the empty plan of the solver's guard:
    a result that is not [null] comes from a parsed target above 0 and
    reaches it, by no more than the largest amount of the catalogue. *)
Theorem planningResult_positive parseInt fuel targetRP tiers r :
  planningResult parseInt fuel targetRP tiers = Some (Some r) →
  ∃ val,
    parseInt (Some targetRP) = Some val ∧
    0 < val ∧
    val ≤ totalRP r ≤ val + maxRP tiers.
Proof.
  unfold planningResult.
  destruct (parseInt (Some targetRP)) as [val|]; [|done].
  destruct (Z.leb_spec val 0) as [|Hpos]; [done|].
  destruct (findOptimalPlan fuel val tiers) as [r'|] eqn:Hrun; [|done].
  intros [= <-]. exists val. split; [done|]. split; [done|].
  revert Hrun. unfold findOptimalPlan.
  destruct (Z.leb_spec val 0); [lia|]. cbv zeta.
  pose proof (maxRP_nonneg tiers).
  pose proof (select_best_range
                (dp (build_table tiers (val + maxRP tiers)))
                val (val + maxRP tiers)) as Hrange.
  destruct (select_best _ _ _) as [m b]. simpl in Hrange.
  destruct (walk fuel _ b); [|done]. intros [= <-]. simpl. lia.
Qed.

Lemma planningResult_positive_witness :
  ∃ val,
    (λ _ : option string, Some 7) (Some "7") = Some val ∧
    0 < val ∧
    val ≤ 8 ≤ val + maxRP small_tiers.
Proof.
  apply (planningResult_positive (λ _, Some 7) 13 "7" small_tiers
           {| packages := [ {| id := 2; rp := 5; price := Z2num 8 |};
                            {| id := 1; rp := 3; price := Z2num 5 |} ];
              totalRP := 8;
              totalPrice := Z2num 13 |}).
  vm_compute. reflexivity.
Defined.


